(** * EnfusionMapMaker: the tile registry and the compositor of
    [Scripts/crop_screenshots.py]

    The development embeds the classes [Screenshot] and
    [ScreenshotProcessor]: coordinate normalisation, the registry with its
    string-keyed dictionary, step-size inference, neighbour lookup and the
    placement arithmetic of [composite_screenshot_tiles].

    Python integers are [Z].  The script divides with [/], which yields a
    binary64 float, and truncates with [int(...)]; both are modelled, the
    division as the correctly rounded quotient.  Exceptions are values of
    [exn]; calls into the imaging library are recorded in a trace. *)

From Stdlib Require Import ZArith Lia Bool Ascii String.
From stdpp Require Import gmap strings list fin_maps pretty sorting.

Local Open Scope Z_scope.

(** ** Exceptions *)

Inductive exn : Type :=
  | ValueError
  | IndexError
  | KeyError
  | ZeroDivisionError
  | OverflowError
  | RuntimeError.

Inductive result (A : Type) : Type :=
  | Ok (a : A)
  | Raise (e : exn).

Arguments Ok {A} a.
Arguments Raise {A} e.

(** [result] is a monad; binds are written with stdpp's [x ← m; k]. *)
#[global] Instance result_ret : MRet result := fun _ a => Ok a.
#[global] Instance result_bind : MBind result := fun _ _ k m =>
  match m with
  | Ok a => k a
  | Raise e => Raise e
  end.

(** ** Python arithmetic: [a / b] on integers and [int(f)]

    [a / b] on two integers is the binary64 float nearest to the exact
    quotient, ties going to the even significand; it raises
    [ZeroDivisionError] for [b = 0] and [OverflowError] when that float
    would not be finite.  A finite float is kept as [fmant * 2 ^ fexp].
    Signed zeros are not distinguished: the script only ever truncates the
    quotient. *)

Module PyFloat.

Record float : Type := mkfloat { fmant : Z; fexp : Z }.

Definition prec : Z := 53.
Definition emin : Z := -1074.
Definition emax : Z := 1024.

(** Numerator and denominator of [a / (b * 2 ^ e)] cleared of the negative
    power. *)
Definition scaled_num (a e : Z) : Z := a * 2 ^ Z.max 0 (- e).
Definition scaled_den (b e : Z) : Z := b * 2 ^ Z.max 0 e.

(** The exponent of the unit in the last place of [a / b], for positive
    [a] and [b]: the quotient scaled by it has [prec] bits, unless the
    exponent is held at [emin] (subnormal results). *)
Definition div_exponent (a b : Z) : Z :=
  let e0 := Z.max (Z.log2 a - Z.log2 b - prec) emin in
  if scaled_num a e0 / scaled_den b e0 <? 2 ^ prec then e0 else e0 + 1.

(** Rounding of [n / d] to the nearest integer, ties to even. *)
Definition round_half_even (n d : Z) : Z :=
  let q := n / d in
  let r := n mod d in
  if 2 * r <? d then q
  else if d <? 2 * r then q + 1
  else if Z.even q then q else q + 1.

(** [a / b] for positive integers, correctly rounded. *)
Definition div_pos (a b : Z) : float :=
  let e := div_exponent a b in
  mkfloat (round_half_even (scaled_num a e) (scaled_den b e)) e.

Definition overflows (f : float) : bool :=
  2 ^ emax <=? Z.abs (fmant f) * 2 ^ Z.max 0 (fexp f).

(** [a / b] on two Python integers. *)
Definition truediv (a b : Z) : result float :=
  if b =? 0 then Raise ZeroDivisionError
  else if a =? 0 then Ok (mkfloat 0 0)
  else
    let f := div_pos (Z.abs a) (Z.abs b) in
    if overflows f then Raise OverflowError
    else Ok (mkfloat (Z.sgn a * Z.sgn b * fmant f) (fexp f)).

(** [int(f)]: truncation toward zero. *)
Definition to_int (f : float) : Z :=
  if 0 <=? fexp f then fmant f * 2 ^ fexp f
  else Z.quot (fmant f) (2 ^ (- fexp f)).

End PyFloat.

(** [int(a / b)] *)
Definition int_truediv (a b : Z) : result Z :=
  f ← PyFloat.truediv a b; Ok (PyFloat.to_int f).

(** ** Built-ins used by the script *)

(** [min(l)] and [max(l)] raise [ValueError] on an empty list. *)
Definition py_min (l : list Z) : result Z :=
  match l with
  | [] => Raise ValueError
  | x :: l' => Ok (foldl Z.min x l')
  end.

Definition py_max (l : list Z) : result Z :=
  match l with
  | [] => Raise ValueError
  | x :: l' => Ok (foldl Z.max x l')
  end.

(** [l[i]] for a literal index [i >= 0]. *)
Definition list_getitem {A} (l : list A) (i : nat) : result A :=
  match l !! i with
  | Some a => Ok a
  | None => Raise IndexError
  end.

(** [d[k]] *)
Definition dict_getitem {V} (d : gmap string V) (k : string) : result V :=
  match d !! k with
  | Some v => Ok v
  | None => Raise KeyError
  end.

(** ** class Screenshot *)

Record Screenshot : Type := mkScreenshot {
  xCoordWS : Z;
  zCoordWS : Z;
  _screenshot_filepath : option string;
  _tile_filepath : option string
}.

#[global] Instance Screenshot_eq_dec : EqDecision Screenshot.
Proof. solve_decision. Defined.

(** [f"Screenshot_{x}_{z}"] *)
Definition make_coordinate_string (x z : Z) : string :=
  "Screenshot_" +:+ pretty x +:+ "_" +:+ pretty z.

Definition coordinate_string (self : Screenshot) : string :=
  make_coordinate_string (xCoordWS self) (zCoordWS self).

(** The values that meet in [screenshot in self.mapped_screenshots]: the
    dictionary's keys are strings, the operand is a [Screenshot]. *)
Inductive pyobj : Type :=
  | PyStr (s : string)
  | PyScreenshot (t : Screenshot).

(** [Screenshot.__eq__]: [False] unless [other] is a [Screenshot]. *)
Definition Screenshot__eq__ (self : Screenshot) (other : pyobj) : bool :=
  match other with
  | PyScreenshot o =>
      (xCoordWS self =? xCoordWS o) && (zCoordWS self =? zCoordWS o)
  | PyStr _ => false
  end.

(** [a == b].  [str.__eq__] answers [NotImplemented] for an operand that is
    not a string, and Python then asks the reflected [Screenshot.__eq__]. *)
Definition py_eq (a b : pyobj) : bool :=
  match a, b with
  | PyStr s, PyStr s' => bool_decide (s = s')
  | PyStr _, PyScreenshot t => Screenshot__eq__ t a
  | PyScreenshot t, _ => Screenshot__eq__ t b
  end.

(** [o in d]: some key of [d] compares equal to [o].  (The comparison of
    hashes that comes first can only discard keys.) *)
Definition dict_contains {V} (d : gmap string V) (o : pyobj) : bool :=
  existsb (fun k => py_eq (PyStr k) o) (elements (dom d)).

(** [get_unit_coordinates] *)
Definition get_unit_coordinates (self : Screenshot)
    (min_x min_z filename_coordinate_step : Z) : result (Z * Z) :=
  ux ← int_truediv (xCoordWS self - min_x) filename_coordinate_step;
  uz ← int_truediv (zCoordWS self - min_z) filename_coordinate_step;
  Ok (ux, uz).

(** ** Sorting by [(xCoordWS, zCoordWS)]

    [sorted] is stable; it is modelled by insertion from the right, each
    element going in front of the elements that do not come strictly
    before it. *)

Definition key_lt (a b : Screenshot) : bool :=
  (xCoordWS a <? xCoordWS b)
  || ((xCoordWS a =? xCoordWS b) && (zCoordWS a <? zCoordWS b)).

Definition key_le (a b : Screenshot) : Prop :=
  xCoordWS a < xCoordWS b
  \/ (xCoordWS a = xCoordWS b /\ zCoordWS a <= zCoordWS b).

Fixpoint insert_by_key (t : Screenshot) (l : list Screenshot) : list Screenshot :=
  match l with
  | [] => [t]
  | u :: l' => if key_lt u t then u :: insert_by_key t l' else t :: u :: l'
  end.

Definition sorted_by_key (l : list Screenshot) : list Screenshot :=
  foldr insert_by_key [] l.

(** ** class ScreenshotProcessor *)

Record ScreenshotProcessor : Type := mkProcessor {
  screenshots : list Screenshot;
  mapped_screenshots : gmap string Screenshot
}.

(** [__init__] *)
Definition ScreenshotProcessor__init__ (l : list Screenshot)
    : result ScreenshotProcessor :=
  let mapped :=
    foldl (fun m t => <[coordinate_string t := t]> m) (∅ : gmap string Screenshot) l in
  if negb (Nat.eqb (length l) (size mapped)) then Raise RuntimeError
  else Ok (mkProcessor (if Nat.ltb 0 (length l) then sorted_by_key l else l) mapped).

(** [add_screenshot] *)
Definition add_screenshot (self : ScreenshotProcessor) (screenshot : Screenshot)
    : ScreenshotProcessor :=
  if dict_contains (mapped_screenshots self) (PyScreenshot screenshot) then self
  else
    mkProcessor
      (sorted_by_key (screenshots self ++ [screenshot]))
      (<[coordinate_string screenshot := screenshot]> (mapped_screenshots self)).

(** [min_x], [max_x], [min_z], [max_z]; the comprehension's filter
    [is not None] keeps every integer coordinate. *)
Definition min_x (self : ScreenshotProcessor) : result Z :=
  py_min (xCoordWS <$> screenshots self).
Definition max_x (self : ScreenshotProcessor) : result Z :=
  py_max (xCoordWS <$> screenshots self).
Definition min_z (self : ScreenshotProcessor) : result Z :=
  py_min (zCoordWS <$> screenshots self).
Definition max_z (self : ScreenshotProcessor) : result Z :=
  py_max (zCoordWS <$> screenshots self).

(** The property [tile_step_size] *)
Definition tile_step_size (self : ScreenshotProcessor) : result Z :=
  tile_0 ← list_getitem (screenshots self) 0;
  tile_1 ← list_getitem (screenshots self) 1;
  let x_diff := Z.abs (xCoordWS tile_0 - xCoordWS tile_1) in
  let z_diff := Z.abs (zCoordWS tile_0 - zCoordWS tile_1) in
  Ok (Z.max x_diff z_diff).

Definition count (self : ScreenshotProcessor) : nat :=
  length (screenshots self).

(** [find_neighbour]; [None] is Python's [None]. *)
Definition find_neighbour (self : ScreenshotProcessor) (screenshot : Screenshot)
    (x_offset z_offset : Z) : result (option Screenshot) :=
  let x := xCoordWS screenshot + x_offset in
  let z := zCoordWS screenshot + z_offset in
  let neighbour_coordinate_lookup := make_coordinate_string x z in
  match dict_getitem (mapped_screenshots self) neighbour_coordinate_lookup with
  | Ok v => Ok (Some v)
  | Raise KeyError => Ok None
  | Raise e => Raise e
  end.

(** ** Calls into the imaging library and the file system

    [composite_screenshot_tiles] and [make_initial_tiles] act on the outside
    world through PIL and [os]; a run is described by the calls it makes, in
    order.  [print] is left out.  [Paste tile x z] stands for
    [map_image.paste(tile.tile_image, (x, z))], the loading of the tile's
    image included, and [SaveInitialTile] for the opening, cropping and
    saving of one tile.  What PIL itself does with a call (decoding a file,
    allocating the canvas) is not part of the model. *)

Inductive event : Type :=
  | ImageNew (size_x size_z : Z)
  | Paste (tile : Screenshot) (coord_x coord_z : Z)
  | Unload (tile : Screenshot)
  | Save (filename : string)
  | Makedirs (path : list string)
  | SaveInitialTile (tile : Screenshot) (path : list string) (target_size : Z).

(** A computation that may raise and that appends to the trace of calls.
    The trace made before an exception is kept. *)
Definition M (A : Type) : Type := list event -> result A * list event.

#[global] Instance M_ret : MRet M := fun _ a tr => (Ok a, tr).
#[global] Instance M_bind : MBind M := fun _ _ k m tr =>
  match m tr with
  | (Ok a, tr') => k a tr'
  | (Raise e, tr') => (Raise e, tr')
  end.

Definition lift {A} (r : result A) : M A := fun tr => (r, tr).
Definition emit (e : event) : M unit := fun tr => (Ok tt, tr ++ [e]).

(** [for x in l: body] *)
Fixpoint for_each {A} (l : list A) (body : A -> M unit) : M unit :=
  match l with
  | [] => mret tt
  | x :: l' => body x;; for_each l' body
  end.

Section Configuration.

(** The module-level settings; the alignment tool rebinds them. *)
Variable TILE_CROP_SIZE : Z.
Variable TILE_OVERLAP : Z.

(** The canvas size along one axis, from the unit range. *)
Definition output_image_size (unit_range : Z) : Z :=
  let size := unit_range * TILE_CROP_SIZE in
  if TILE_OVERLAP =? 0 then size
  else size + (unit_range - 1) * TILE_OVERLAP.

(** The paste coordinate along one axis, from the grid unit. *)
Definition paste_tile_coord (unit : Z) : Z :=
  let coord := unit * TILE_CROP_SIZE in
  if TILE_OVERLAP =? 0 then coord
  else coord + TILE_OVERLAP * unit.

(** [composite_screenshot_tiles] *)
Definition composite_screenshot_tiles (self : ScreenshotProcessor)
    (tiles : list Screenshot) (output_filename : string) : M unit :=
  tile_min_x ← lift (py_min (xCoordWS <$> tiles));
  tile_min_z ← lift (py_min (zCoordWS <$> tiles));
  tile_max_x ← lift (py_max (xCoordWS <$> tiles));
  tile_max_z ← lift (py_max (zCoordWS <$> tiles));
  let x_ws_range := tile_max_x - tile_min_x in
  let z_ws_range := tile_max_z - tile_min_z in
  step ← lift (tile_step_size self);
  x_units ← lift (int_truediv x_ws_range step);
  let x_unit_range := x_units + 1 in
  step ← lift (tile_step_size self);
  z_units ← lift (int_truediv z_ws_range step);
  let z_unit_range := z_units + 1 in
  emit (ImageNew (output_image_size x_unit_range) (output_image_size z_unit_range));;
  for_each (sorted_by_key tiles) (fun tile =>
    step ← lift (tile_step_size self);
    xz ← lift (get_unit_coordinates tile tile_min_x tile_min_z step);
    let x := xz.1 in
    let z := z_unit_range - xz.2 - 1 in
    emit (Paste tile (paste_tile_coord x) (paste_tile_coord z));;
    emit (Unload tile));;
  emit (Save output_filename).

(** [make_large_map] called with its default arguments, as [__main__]
    does: all tiles are composited. *)
Definition make_large_map (self : ScreenshotProcessor) (filepath : string) : M unit :=
  composite_screenshot_tiles self (screenshots self) filepath.

(** [make_initial_tiles].  A path is the list of components given to
    [os.path.join]; [path_exists] stands for [os.path.exists]. *)
Definition make_initial_tiles (path_exists : list string -> bool)
    (self : ScreenshotProcessor) (output_directory : string)
    (initial_z_dirname : Z) : M unit :=
  for_each (screenshots self) (fun screenshot =>
    step ← lift (tile_step_size self);
    normalized_x ← lift (int_truediv (xCoordWS screenshot) step);
    step ← lift (tile_step_size self);
    normalized_z ← lift (int_truediv (zCoordWS screenshot) step);
    let tile_directory_path :=
      [output_directory; pretty initial_z_dirname; pretty normalized_x;
       pretty normalized_z] in
    let intial_tile_filepath := tile_directory_path ++ ["tile.jpg"] in
    if path_exists intial_tile_filepath then mret tt
    else
      emit (Makedirs tile_directory_path);;
      emit (SaveInitialTile screenshot intial_tile_filepath
              (TILE_CROP_SIZE + TILE_OVERLAP))).

End Configuration.

(** [auto_find_crop] up to the choice of the neighbour: the source tile,
    the neighbour and whether the neighbour is the one above. *)
Definition auto_find_crop_neighbour (self : ScreenshotProcessor)
    : result (Screenshot * Screenshot * bool) :=
  source_screenshot ←
    dict_getitem (mapped_screenshots self) (make_coordinate_string 5700 3800);
  step ← tile_step_size self;
  screenshot_above ← find_neighbour self source_screenshot 0 step;
  step ← tile_step_size self;
  screenshot_below ← find_neighbour self source_screenshot 0 (- step);
  match screenshot_above, screenshot_below with
  | Some n, _ => Ok (source_screenshot, n, true)
  | None, Some n => Ok (source_screenshot, n, false)
  | None, None => Raise RuntimeError
  end.

(** * Vocabulary of the statements *)

(** The registries that the class can produce: built by [__init__], then
    grown by [add_screenshot]. *)
Inductive reachable : ScreenshotProcessor -> Prop :=
  | reachable_init l self :
      ScreenshotProcessor__init__ l = Ok self -> reachable self
  | reachable_add self screenshot :
      reachable self -> reachable (add_screenshot self screenshot).

(** What holds of every such registry. *)
Record registry_inv (self : ScreenshotProcessor) : Prop := {
  inv_sorted : Sorted key_le (screenshots self);
  inv_key : forall k v, mapped_screenshots self !! k = Some v ->
            k = coordinate_string v /\ v ∈ screenshots self;
  inv_mapped : forall t, t ∈ screenshots self ->
            is_Some (mapped_screenshots self !! coordinate_string t)
}.


(** Occurrence of a character in a string. *)
Fixpoint has_char (c : Ascii.ascii) (s : string) : bool :=
  match s with
  | EmptyString => false
  | String c' s' => bool_decide (c = c') || has_char c s'
  end.


Section TileCalls.

Variables TILE_CROP_SIZE TILE_OVERLAP : Z.


End TileCalls.

Definition coordinates (t : Screenshot) : Z * Z := (xCoordWS t, zCoordWS t).

(** The coordinates of a full grid of [m] by [n] tiles spaced [s] apart,
    from [(x0, z0)]. *)
Definition grid_coords (x0 z0 s m n : Z) : list (Z * Z) :=
  i ← seqZ 0 m; j ← seqZ 0 n; [(x0 + i * s, z0 + j * s)].


(** The tile of a cropped image found on disk at the given coordinates. *)
Definition tile_at (x z : Z) : Screenshot :=
  mkScreenshot x z None
    (Some ("map_" +:+ pretty x +:+ "_" +:+ pretty z +:+ "_tile.png")).

(** [ScreenshotProcessor()] *)
Definition empty_processor : ScreenshotProcessor := mkProcessor [] ∅.

(** The registry of the scenario: four tiles added one by one. *)
Definition grid_2x2 : ScreenshotProcessor :=
  foldl add_screenshot empty_processor
    [tile_at 0 0; tile_at 100 0; tile_at 0 100; tile_at 100 100].

(** ** [make_large_map] with its optional arguments

    The loop of [make_large_map] keeps the tiles to composite and the
    extreme coordinates seen so far, [-1] standing for "none yet". *)
Record region_scan : Type := mkScan {
  included_tiles : list Screenshot;
  min_x_coord : Z;
  min_z_coord : Z;
  max_x_coord : Z;
  max_z_coord : Z
}.

Section LargeMap.

Variables TILE_CROP_SIZE TILE_OVERLAP : Z.
Variable self : ScreenshotProcessor.
Variables x_coods_start z_coord_start max_x_tile_count max_z_tile_count : Z.

Fixpoint scan_region (l : list Screenshot) (st : region_scan) : result region_scan :=
  match l with
  | [] => Ok st
  | screenshot :: l' =>
      if (0 <? x_coods_start) && (xCoordWS screenshot <? x_coods_start)
      then scan_region l' st
      else if (0 <? z_coord_start) && (zCoordWS screenshot <? z_coord_start)
      then scan_region l' st
      else
        let min_x :=
          if (min_x_coord st =? -1) || (xCoordWS screenshot <? min_x_coord st)
          then xCoordWS screenshot else min_x_coord st in
        let min_z :=
          if (min_z_coord st =? -1) || (zCoordWS screenshot <? min_z_coord st)
          then zCoordWS screenshot else min_z_coord st in
        let max_x :=
          if (max_x_coord st =? -1) || (max_x_coord st <? xCoordWS screenshot)
          then xCoordWS screenshot else max_x_coord st in
        let max_z :=
          if (max_z_coord st =? -1) || (max_z_coord st <? zCoordWS screenshot)
          then zCoordWS screenshot else max_z_coord st in
        step ← tile_step_size self;
        x_tile_count ← int_truediv (max_x - min_x) step;
        step ← tile_step_size self;
        z_tile_count ← int_truediv (max_z - min_z) step;
        let included :=
          if ((max_x_tile_count =? 0) || (x_tile_count <=? max_x_tile_count))
             || ((max_z_tile_count =? 0) || (z_tile_count <=? max_z_tile_count))
          then included_tiles st ++ [screenshot]
          else included_tiles st in
        scan_region l' (mkScan included min_x min_z max_x max_z)
  end.

(** [make_large_map(filepath, x_coods_start, z_coord_start,
    max_x_tile_count, max_z_tile_count)] *)
Definition make_large_map_region (filepath : string) : M unit :=
  if (x_coods_start <? 0) && (z_coord_start <? 0)
     && (max_x_tile_count <? 0) && (max_z_tile_count <? 0)
  then composite_screenshot_tiles TILE_CROP_SIZE TILE_OVERLAP self
         (screenshots self) filepath
  else
    scan ← lift (scan_region (screenshots self) (mkScan [] (-1) (-1) (-1) (-1)));
    composite_screenshot_tiles TILE_CROP_SIZE TILE_OVERLAP self
      (included_tiles scan) filepath.

End LargeMap.

(** The tiles that the start coordinates do not skip. *)
Definition from_start (x_coods_start z_coord_start : Z) (t : Screenshot) : Prop :=
  ~ (0 < x_coods_start /\ xCoordWS t < x_coods_start)
  /\ ~ (0 < z_coord_start /\ zCoordWS t < z_coord_start).

#[global] Instance from_start_dec xs zs t : Decision (from_start xs zs t).
Proof. unfold from_start. apply _. Defined.

(** ** class TileAlignmentGUI: the choice of the tiles to align *)

(** [l[i]] for an integer index: a negative index counts from the end. *)
Definition list_getitem_int {A} (l : list A) (i : Z) : result A :=
  let n := Z.of_nat (length l) in
  let j := if i <? 0 then i + n else i in
  if (0 <=? j) && (j <? n) then list_getitem l (Z.to_nat j)
  else Raise IndexError.

(** [a % b] on integers: the result has the sign of [b]. *)
Definition py_mod (a b : Z) : result Z :=
  if b =? 0 then Raise ZeroDivisionError else Ok (a mod b).

(** The truth value of what [find_neighbour] returns: [Screenshot] defines
    neither [__bool__] nor [__len__], so only [None] is false. *)
Definition py_bool (o : option Screenshot) : bool :=
  match o with
  | Some _ => true
  | None => false
  end.

(** An entry of [valid_tile_sets]: the dict with the keys ['tile'],
    ['h_neighbor'] and ['v_neighbor']. *)
Record tile_set : Type := mkTileSet {
  set_tile : Screenshot;
  set_h_neighbor : option Screenshot;
  set_v_neighbor : option Screenshot
}.

(** The loop of [find_valid_tile_sets] over the tiles that are left, with
    the list [valid_sets] built so far. *)
Fixpoint find_valid_tile_sets_loop (processor : ScreenshotProcessor)
    (tiles : list Screenshot) (valid_sets : list tile_set)
    : result (list tile_set) :=
  match tiles with
  | [] => Ok valid_sets
  | tile :: tiles =>
      step ← tile_step_size processor;
      h_neighbor ← find_neighbour processor tile step 0;
      step ← tile_step_size processor;
      v_neighbor ← find_neighbour processor tile 0 step;
      find_valid_tile_sets_loop processor tiles
        (if py_bool h_neighbor || py_bool v_neighbor
         then valid_sets ++ [mkTileSet tile h_neighbor v_neighbor]
         else valid_sets)
  end.

(** [find_valid_tile_sets] *)
Definition find_valid_tile_sets (processor : ScreenshotProcessor)
    (tiles : list Screenshot) : result (list tile_set) :=
  find_valid_tile_sets_loop processor tiles [].

(** The attributes of the tool that choose the tiles on display. *)
Record TileAlignmentGUI : Type := mkGUI {
  processor : ScreenshotProcessor;
  tiles : list Screenshot;
  valid_tile_sets : list tile_set;
  current_set_index : Z;
  selected_tile_index : nat;
  current_tile : Screenshot;
  horizontal_neighbor : option Screenshot;
  vertical_neighbor : option Screenshot
}.

(** The loop [for i, tile in enumerate(self.tiles)] of
    [load_current_tile_set]: the index of the first tile that compares
    equal to the current one; the attribute keeps its value when there is
    none. *)
Fixpoint enumerate_select (tiles : list Screenshot) (i : nat)
    (current_tile : Screenshot) (selected_tile_index : nat) : nat :=
  match tiles with
  | [] => selected_tile_index
  | tile :: tiles =>
      if Screenshot__eq__ tile (PyScreenshot current_tile) then i
      else enumerate_select tiles (S i) current_tile selected_tile_index
  end.

(** [load_current_tile_set], from the attributes it reads. *)
Definition load_current_tile_set (processor : ScreenshotProcessor)
    (tiles : list Screenshot) (valid_tile_sets : list tile_set)
    (current_set_index : Z) (selected_tile_index : nat)
    : result TileAlignmentGUI :=
  current_set ← list_getitem_int valid_tile_sets current_set_index;
  let current_tile := set_tile current_set in
  Ok (mkGUI processor tiles valid_tile_sets current_set_index
        (enumerate_select tiles 0 current_tile selected_tile_index)
        current_tile (set_h_neighbor current_set) (set_v_neighbor current_set)).

(** [__init__], up to the first tile set being loaded; the widgets are
    created after that. *)
Definition TileAlignmentGUI__init__ (processor : ScreenshotProcessor)
    : result TileAlignmentGUI :=
  let selected_tile_index := 0%nat in
  let tiles := screenshots processor in
  if (length tiles <? 2)%nat then Raise RuntimeError
  else
    valid_tile_sets ← find_valid_tile_sets processor tiles;
    match valid_tile_sets with
    | [] => Raise RuntimeError
    | _ =>
        let current_set_index := 0 in
        load_current_tile_set processor tiles valid_tile_sets current_set_index
          selected_tile_index
    end.

(** [next_set] and [prev_set]: the new index and the tile set loaded for
    it; the widgets are refreshed after that. *)
Definition next_set (self : TileAlignmentGUI) : result TileAlignmentGUI :=
  if (1 <? length (valid_tile_sets self))%nat then
    current_set_index ← py_mod (current_set_index self + 1)
                               (Z.of_nat (length (valid_tile_sets self)));
    load_current_tile_set (processor self) (tiles self) (valid_tile_sets self)
      current_set_index (selected_tile_index self)
  else Ok self.

Definition prev_set (self : TileAlignmentGUI) : result TileAlignmentGUI :=
  if (1 <? length (valid_tile_sets self))%nat then
    current_set_index ← py_mod (current_set_index self - 1)
                               (Z.of_nat (length (valid_tile_sets self)));
    load_current_tile_set (processor self) (tiles self) (valid_tile_sets self)
      current_set_index (selected_tile_index self)
  else Ok self.

(** The entry of [valid_tile_sets] for a tile, if it has a neighbour one
    step to the right or one step up. *)
Definition tile_set_of (processor : ScreenshotProcessor) (step : Z)
    (tile : Screenshot) : option tile_set :=
  let h_neighbor :=
    mapped_screenshots processor
      !! make_coordinate_string (xCoordWS tile + step) (zCoordWS tile + 0) in
  let v_neighbor :=
    mapped_screenshots processor
      !! make_coordinate_string (xCoordWS tile + 0) (zCoordWS tile + step) in
  if py_bool h_neighbor || py_bool v_neighbor
  then Some (mkTileSet tile h_neighbor v_neighbor)
  else None.

(** What the tool keeps between two clicks: the index is in range and the
    tiles on display are those of the tile set at that index. *)
Record loaded (self : TileAlignmentGUI) : Prop := {
  loaded_index : 0 <= current_set_index self
                 < Z.of_nat (length (valid_tile_sets self));
  loaded_set :
    exists current_set,
      valid_tile_sets self !! Z.to_nat (current_set_index self) = Some current_set
      /\ current_tile self = set_tile current_set
      /\ horizontal_neighbor self = set_h_neighbor current_set
      /\ vertical_neighbor self = set_v_neighbor current_set;
  loaded_selected :
    selected_tile_index self
    = enumerate_select (tiles self) 0 (current_tile self) (selected_tile_index self);
  loaded_tiles :
    forall tile_set, tile_set ∈ valid_tile_sets self ->
      set_tile tile_set ∈ tiles self
}.

(** The tool on the registry of the scenario, as [__init__] leaves it. *)
Definition gui_2x2 : TileAlignmentGUI :=
  mkGUI grid_2x2
    [tile_at 0 0; tile_at 0 100; tile_at 100 0; tile_at 100 100]
    [mkTileSet (tile_at 0 0) (Some (tile_at 100 0)) (Some (tile_at 0 100));
     mkTileSet (tile_at 0 100) (Some (tile_at 100 100)) None;
     mkTileSet (tile_at 100 0) None (Some (tile_at 100 100))]
    0 0 (tile_at 0 0) (Some (tile_at 100 0)) (Some (tile_at 0 100)).

(** ** [make_initial_tiles] with the files it leaves behind

    In [make_initial_tiles] above [path_exists] is one answer for the whole
    run.  Here [os.path.exists] also sees the files that the earlier
    iterations of the loop have saved. *)



Section InitialTiles.

Variables TILE_CROP_SIZE TILE_OVERLAP : Z.

(** The files that exist before the first call. *)
Variable initial_files : list string -> bool.





End InitialTiles.





Definition is_paste_or_unload (e : event) : Prop :=
  match e with Paste _ _ _ | Unload _ => True | _ => False end.

(** * Properties *)

(** ** The division: exact below [2 ^ 53] *)

Module PyFloatFacts.
Import PyFloat.

Lemma round_half_even_cases n d :
  0 < d ->
  round_half_even n d = n / d
  \/ (round_half_even n d = n / d + 1 /\ d <= 2 * (n mod d)).
Proof.
  intros Hd. unfold round_half_even.
  destruct (Z.ltb_spec (2 * (n mod d)) d); [by left|].
  destruct (Z.ltb_spec d (2 * (n mod d))); [right; lia|].
  destruct (Z.even (n / d)); [by left | right; lia].
Qed.

Lemma pow2_succ k : 0 <= k -> 2 ^ (k + 1) = 2 * 2 ^ k.
Proof. intros. rewrite Z.pow_add_r by lia. lia. Qed.

(** Normalisation of the scaled quotient, for a numerator that fits the
    significand. *)
Lemma div_exponent_spec a b :
  0 < a < 2 ^ prec -> 0 < b ->
  let e := div_exponent a b in
  emin <= e <= 0
  /\ a * 2 ^ (- e) / b < 2 ^ prec
  /\ (2 ^ (prec - 1) <= a * 2 ^ (- e) / b \/ e = emin).
Proof.
  intros [Ha0 Ha] Hb. unfold div_exponent, scaled_num, scaled_den, prec, emin in *.
  pose proof (Z.log2_spec a Ha0) as [Hla1 Hla2].
  pose proof (Z.log2_spec b Hb) as [Hlb1 Hlb2].
  pose proof (Z.log2_nonneg a) as Hla0.
  pose proof (Z.log2_nonneg b) as Hlb0.
  assert (Hla : Z.log2 a <= 52).
  { apply Z.lt_succ_r. change (Z.succ 52) with 53.
    apply Z.log2_lt_pow2; lia. }
  set (la := Z.log2 a) in *. set (lb := Z.log2 b) in *.
  set (e0 := Z.max (la - lb - 53) (-1074)).
  assert (He0 : -1074 <= e0 <= -1) by lia.
  assert (He0' : la - lb - 53 <= e0) by lia.
  rewrite (Z.max_r 0 (- e0)) by lia. rewrite (Z.max_l 0 e0) by lia.
  rewrite Z.mul_1_r.
  (* upper bound on the scaled numerator *)
  assert (Hup : a * 2 ^ (- e0) < 2 ^ 54 * b).
  { assert (2 ^ (- e0) <= 2 ^ (53 + lb - la)) by (apply Z.pow_le_mono_r; lia).
    assert (2 ^ Z.succ la * 2 ^ (53 + lb - la) = 2 ^ 54 * 2 ^ lb).
    { rewrite <- !Z.pow_add_r by lia. f_equal. lia. }
    assert (0 < 2 ^ (- e0)) by (apply Z.pow_pos_nonneg; lia).
    nia. }
  assert (Hsplit : 2 ^ (- e0) = 2 * 2 ^ (- (e0 + 1))).
  { rewrite <- pow2_succ by lia. f_equal. lia. }
  assert (0 < 2 ^ (- (e0 + 1))) by (apply Z.pow_pos_nonneg; lia).
  destruct (Z.ltb_spec (a * 2 ^ (- e0) / b) (2 ^ 53)) as [Hq|Hq]; cbv zeta.
  - split; [lia|]. split; [done|].
    destruct (Z.eq_dec e0 (-1074)) as [->|Hne]; [by right|left].
    assert (e0 = la - lb - 53) as -> by lia.
    apply Z.div_le_lower_bound; [done|].
    assert (2 ^ la * 2 ^ (- (la - lb - 53)) = 2 ^ 52 * 2 ^ Z.succ lb).
    { rewrite <- !Z.pow_add_r by lia. f_equal. lia. }
    assert (0 < 2 ^ (- (la - lb - 53))) by (apply Z.pow_pos_nonneg; lia).
    change (53 - 1) with 52. nia.
  - split; [lia|]. split.
    + apply Z.div_lt_upper_bound; [done|].
      change (2 ^ 54) with (2 * 2 ^ 53) in Hup. nia.
    + left. apply Z.div_le_lower_bound; [done|].
      assert (b * 2 ^ 53 <= a * 2 ^ (- e0)).
      { pose proof (Z.mul_div_le (a * 2 ^ (- e0)) b Hb). nia. }
      change (53 - 1) with 52. change (2 ^ 53) with (2 * 2 ^ 52) in *. nia.
Qed.


Lemma div_pos_mant a b :
  0 < a < 2 ^ prec -> 0 < b ->
  0 <= fmant (div_pos a b) <= 2 ^ prec
  /\ fexp (div_pos a b) <= 0
  /\ fmant (div_pos a b) / 2 ^ (- fexp (div_pos a b)) = a / b.
Proof.
  intros Ha Hb. pose proof (div_exponent_spec a b Ha Hb) as (He & Hlt & Hnorm).
  unfold div_pos. cbn [fmant fexp]. cbv zeta in He, Hlt, Hnorm.
  set (e := div_exponent a b) in *.
  unfold scaled_num, scaled_den.
  rewrite (Z.max_r 0 (- e)) by lia. rewrite (Z.max_l 0 e) by lia.
  rewrite Z.mul_1_r.
  set (P := 2 ^ (- e)) in *.
  assert (HP : 0 < P) by (apply Z.pow_pos_nonneg; lia).
  set (N := a * P) in *.
  pose proof (Z.div_mod N b ltac:(lia)) as HN.
  pose proof (Z.mod_pos_bound N b Hb) as Hr.
  assert (Hq0 : 0 <= N / b) by (apply Z.div_pos; nia).
  assert (Hfloor : N / b / P = a / b).
  { rewrite Z.div_div by lia. unfold N. apply Z.div_mul_cancel_r; lia. }
  destruct (round_half_even_cases N b Hb) as [->|[-> Hhalf]].
  { split; [lia|]. split; [lia|done]. }
  split; [lia|]. split; [lia|].
  rewrite <- Hfloor.
  set (q := N / b) in *. set (r := N mod b) in *.
  pose proof (Z.div_mod q P ltac:(lia)) as Hq.
  pose proof (Z.mod_pos_bound q P HP) as Hv.
  destruct (Z.lt_ge_cases (q mod P + 1) P) as [Hsmall|Hbig].
  { symmetry. apply (Z.div_unique (q + 1) P (q / P) (q mod P + 1)); lia. }
  exfalso.
  (* q + 1 is a multiple of P: the quotient would sit within half a unit
     below an integer, which the width of the significand rules out *)
  set (t := q / P + 1).
  assert (Hmul : q + 1 = P * t) by (unfold t; lia).
  assert (Ht : 1 <= t) by (pose proof (Z.div_pos q P Hq0 HP); unfold t; lia).
  assert (Hgap : P * (b * t - a) = b - r) by (unfold N in HN; nia).
  assert (Hk : 1 <= b * t - a) by nia.
  assert (Hb2 : 2 * P <= b) by nia.
  destruct Hnorm as [Hnorm|Hemin].
  - unfold prec in *. change (53 - 1) with 52 in Hnorm.
    change (2 ^ 53) with (2 * 2 ^ 52) in *.
    assert (2 ^ 52 * b <= N) by nia.
    unfold N in *. nia.
  - assert (2 ^ prec < P).
    { unfold P. rewrite Hemin. apply Z.pow_lt_mono_r; unfold prec, emin; lia. }
    nia.
Qed.

Lemma div_pos_exact a b :
  0 < a < 2 ^ prec -> 0 < b ->
  overflows (div_pos a b) = false /\ to_int (div_pos a b) = a / b.
Proof.
  intros Ha Hb. pose proof (div_pos_mant a b Ha Hb) as (Hm & He & Hdiv).
  unfold overflows, to_int. set (f := div_pos a b) in *.
  rewrite (Z.max_l 0 (fexp f)) by lia. split.
  - apply Z.leb_gt. rewrite Z.abs_eq by lia. rewrite Z.mul_1_r.
    assert (2 ^ prec < 2 ^ emax) by (apply Z.pow_lt_mono_r; unfold prec, emax; lia).
    lia.
  - destruct (Z.leb_spec 0 (fexp f)).
    + assert (fexp f = 0) as Hz by lia. rewrite Hz in *.
      change (2 ^ (- 0)) with 1 in Hdiv. rewrite Z.div_1_r in Hdiv.
      change (2 ^ 0) with 1. lia.
    + rewrite Z.quot_div_nonneg; [done|lia|].
      apply Z.pow_pos_nonneg; lia.
Qed.

End PyFloatFacts.

Lemma to_int_sign s m e :
  s = 1 \/ s = -1 ->
  PyFloat.to_int (PyFloat.mkfloat (s * m) e) = s * PyFloat.to_int (PyFloat.mkfloat m e).
Proof.
  unfold PyFloat.to_int. cbn [PyFloat.fmant PyFloat.fexp].
  intros Hs. destruct (Z.leb_spec 0 e) as [He|He]; [lia|].
  destruct Hs as [->| ->]; [by rewrite !Z.mul_1_l|].
  replace (-1 * m) with (- m) by lia.
  rewrite Z.quot_opp_l by (apply Z.pow_nonzero; lia). lia.
Qed.

Lemma quot_sign_abs a b :
  a <> 0 -> b <> 0 -> Z.quot a b = Z.sgn a * Z.sgn b * (Z.abs a / Z.abs b).
Proof.
  intros Ha Hb.
  rewrite <- (Z.quot_div_nonneg (Z.abs a) (Z.abs b)) by lia.
  destruct a as [|p|p], b as [|q|q]; try done; cbn [Z.sgn Z.abs].
  all: rewrite <- ?Pos2Z.opp_pos.
  all: rewrite ?Z.quot_opp_l, ?Z.quot_opp_r by done.
  all: rewrite ?Z.abs_opp, !Z.abs_eq by lia.
  all: lia.
Qed.

(** Within the range of the significand, [int(a / b)] is the integer
    quotient truncated toward zero. *)
Lemma int_truediv_exact a b :
  Z.abs a < 2 ^ 53 -> b <> 0 -> int_truediv a b = Ok (Z.quot a b).
Proof.
  intros Ha Hb. unfold int_truediv, PyFloat.truediv.
  destruct (Z.eqb_spec b 0) as [|_]; [done|].
  destruct (Z.eqb_spec a 0) as [->|Ha0].
  { cbn. by rewrite Z.quot_0_l. }
  destruct (PyFloatFacts.div_pos_exact (Z.abs a) (Z.abs b)) as [Hov Hint];
    [unfold PyFloat.prec; lia | lia |].
  rewrite Hov. cbn. f_equal.
  rewrite to_int_sign by lia.
  rewrite quot_sign_abs by done. rewrite <- Hint.
  reflexivity.
Qed.

Lemma int_truediv_nonneg a b :
  0 <= a < 2 ^ 53 -> 0 < b -> int_truediv a b = Ok (a / b).
Proof.
  intros Ha Hb. rewrite int_truediv_exact by lia.
  by rewrite Z.quot_div_nonneg by lia.
Qed.

(** ** Sorting *)

Lemma key_lt_true a b : key_lt a b = true -> key_le a b.
Proof. unfold key_lt, key_le. intros H. lia. Qed.

Lemma key_lt_false a b : key_lt a b = false <-> key_le b a.
Proof. unfold key_lt, key_le. split; intros H; lia. Qed.

Lemma insert_by_key_perm t l : insert_by_key t l ≡ₚ t :: l.
Proof.
  induction l as [|u l IH]; cbn; [done|].
  destruct (key_lt u t); [|done].
  rewrite IH. apply Permutation_swap.
Qed.

Lemma sorted_by_key_perm l : sorted_by_key l ≡ₚ l.
Proof.
  induction l as [|t l IH]; cbn; [done|].
  by rewrite insert_by_key_perm, IH.
Qed.

Lemma insert_by_key_hd t u l :
  key_le u t -> HdRel key_le u l -> HdRel key_le u (insert_by_key t l).
Proof.
  intros Hut [|v l' Huv]; cbn; [by constructor|].
  destruct (key_lt v t); by constructor.
Qed.

Lemma insert_by_key_sorted t l :
  Sorted key_le l -> Sorted key_le (insert_by_key t l).
Proof.
  induction 1 as [|u l Hl IH Hhd]; cbn; [by repeat constructor|].
  destruct (key_lt u t) eqn:Hlt.
  - constructor; [done|]. apply insert_by_key_hd; [|done].
    by apply key_lt_true.
  - constructor; [by constructor|]. constructor. by apply key_lt_false.
Qed.

Lemma sorted_by_key_sorted l : Sorted key_le (sorted_by_key l).
Proof.
  induction l as [|t l IH]; cbn; [constructor|].
  by apply insert_by_key_sorted.
Qed.


Lemma sorted_by_key_length l : length (sorted_by_key l) = length l.
Proof. apply Permutation_length, sorted_by_key_perm. Qed.

(** ** Coordinate strings *)

Lemma pretty_N_go_no_sep x s :
  has_char "_" s = false -> has_char "_" (pretty_N_go x s) = false.
Proof.
  revert s. induction (N.lt_wf_0 x) as [x _ IH]. intros s Hs.
  destruct (N.eq_dec x 0%N) as [->|Hx]; [done|].
  rewrite pretty_N_go_step by lia.
  apply IH; [apply N.div_lt; lia|].
  cbn. rewrite Hs, orb_false_r.
  unfold pretty_N_char. by repeat case_match.
Qed.

Lemma pretty_N_no_sep (x : N) : has_char "_" (pretty x) = false.
Proof.
  unfold pretty, pretty_N. destruct (decide (x = 0%N)); [done|].
  by apply pretty_N_go_no_sep.
Qed.

Lemma pretty_Z_no_sep (x : Z) : has_char "_" (pretty x) = false.
Proof.
  destruct x as [|p|p]; [done|..].
  - apply (pretty_N_no_sep (N.pos p)).
  - change (has_char "_" (String "-" (pretty (N.pos p))) = false).
    cbn [has_char]. by rewrite pretty_N_no_sep.
Qed.

Lemma append_sep_inj s1 s2 t1 t2 :
  has_char "_" s1 = false -> has_char "_" s2 = false ->
  s1 +:+ String "_" t1 = s2 +:+ String "_" t2 -> s1 = s2 /\ t1 = t2.
Proof.
  revert s2. induction s1 as [|c s1 IH]; intros [|c' s2]; cbn; intros H1 H2 Heq.
  - by simplify_eq.
  - by simplify_eq.
  - by simplify_eq.
  - apply orb_false_elim in H1 as [_ H1]. apply orb_false_elim in H2 as [_ H2].
    injection Heq as -> Heq. destruct (IH s2 H1 H2 Heq) as [-> ->]. done.
Qed.

Lemma make_coordinate_string_inj x z x' z' :
  make_coordinate_string x z = make_coordinate_string x' z' -> x = x' /\ z = z'.
Proof.
  unfold make_coordinate_string. intros Heq.
  apply (inj (String.append "Screenshot_")) in Heq.
  apply append_sep_inj in Heq as [Hx Hz]; [|apply pretty_Z_no_sep..].
  split; by apply (inj pretty).
Qed.

(** ** The membership test of [add_screenshot] *)

Lemma dict_contains_screenshot {V} (d : gmap string V) t :
  dict_contains d (PyScreenshot t) = false.
Proof.
  unfold dict_contains. induction (elements (dom d)) as [|k ks IH]; [done|].
  cbn. exact IH.
Qed.

Lemma add_screenshot_appends self t :
  add_screenshot self t =
  mkProcessor (sorted_by_key (screenshots self ++ [t]))
              (<[coordinate_string t := t]> (mapped_screenshots self)).
Proof. unfold add_screenshot. by rewrite dict_contains_screenshot. Qed.

Lemma add_screenshot_count self t :
  count (add_screenshot self t) = S (count self).
Proof.
  rewrite add_screenshot_appends. unfold count. cbn.
  rewrite sorted_by_key_length, length_app. cbn. lia.
Qed.

(** ** The invariant of the registry *)

Lemma foldl_insert_lookup (l : list Screenshot) (m : gmap string Screenshot) k v :
  foldl (fun m t => <[coordinate_string t := t]> m) m l !! k = Some v ->
  m !! k = Some v \/ (k = coordinate_string v /\ v ∈ l).
Proof.
  revert m. induction l as [|t l IH]; intros m; cbn; [by left|].
  intros H. apply IH in H as [H|[-> Hv]].
  - destruct (decide (coordinate_string t = k)) as [<-|Hne].
    + rewrite lookup_insert_eq in H. injection H as ->. right. split; [done|]. left.
    + rewrite lookup_insert_ne in H by done. by left.
  - right. split; [done|]. by right.
Qed.

Lemma foldl_insert_is_Some (l : list Screenshot) (m : gmap string Screenshot) k :
  is_Some (m !! k) \/ (exists t, t ∈ l /\ k = coordinate_string t) ->
  is_Some (foldl (fun m t => <[coordinate_string t := t]> m) m l !! k).
Proof.
  revert m. induction l as [|t l IH]; intros m; cbn.
  - intros [H|(t & Ht & _)]; [done|]. by apply elem_of_nil in Ht.
  - intros H. apply IH.
    destruct (decide (coordinate_string t = k)) as [<-|Hne].
    + left. rewrite lookup_insert_eq. by eexists.
    + rewrite lookup_insert_ne by done.
      destruct H as [H|(u & Hu & ->)]; [by left|].
      apply elem_of_cons in Hu as [->|Hu]; [done|]. right. by exists u.
Qed.

Lemma init_inv l self :
  ScreenshotProcessor__init__ l = Ok self -> registry_inv self.
Proof.
  unfold ScreenshotProcessor__init__. case_match; [done|].
  intros [= <-]. split; cbn.
  - destruct l; cbn -[sorted_by_key]; [apply Sorted_nil|apply sorted_by_key_sorted].
  - intros k v Hk. apply foldl_insert_lookup in Hk as [Hk|[-> Hv]].
    { by rewrite lookup_empty in Hk. }
    split; [done|]. destruct l; [done|]. cbn -[sorted_by_key].
    by rewrite sorted_by_key_perm.
  - intros t Ht. apply foldl_insert_is_Some. right. exists t. split; [|done].
    destruct l; [done|]. cbn -[sorted_by_key] in Ht.
    by rewrite sorted_by_key_perm in Ht.
Qed.

Lemma add_screenshot_inv self t :
  registry_inv self -> registry_inv (add_screenshot self t).
Proof.
  intros [Hs Hk Hm]. rewrite add_screenshot_appends. split; cbn -[sorted_by_key].
  - apply sorted_by_key_sorted.
  - intros k v. rewrite sorted_by_key_perm.
    destruct (decide (coordinate_string t = k)) as [<-|Hne].
    + rewrite lookup_insert_eq. intros [= <-]. split; [done|].
      apply elem_of_app. right. by left.
    + rewrite lookup_insert_ne by done. intros H.
      destruct (Hk k v H) as [-> Hv]. split; [done|].
      apply elem_of_app. by left.
  - intros u. rewrite sorted_by_key_perm. intros Hu.
    destruct (decide (coordinate_string t = coordinate_string u)) as [<-|Hne].
    + rewrite lookup_insert_eq. by eexists.
    + rewrite lookup_insert_ne by done.
      apply elem_of_app in Hu as [Hu|Hu]; [by apply Hm|].
      apply list_elem_of_singleton in Hu as ->. done.
Qed.

Lemma reachable_inv self : reachable self -> registry_inv self.
Proof.
  induction 1 as [l self Hinit|self t _ IH].
  - by eapply init_inv.
  - by apply add_screenshot_inv.
Qed.

(** ** Running a computation *)

Lemma bind_lift_ok {A B} (a : A) (k : A -> M B) tr :
  (lift (Ok a) ≫= k) tr = k a tr.
Proof. done. Qed.

Lemma bind_lift_raise {A B} e (k : A -> M B) tr :
  (lift (Raise e) ≫= k) tr = (Raise e, tr).
Proof. done. Qed.

Lemma tile_step_size_short self :
  (length (screenshots self) < 2)%nat -> tile_step_size self = Raise IndexError.
Proof.
  unfold tile_step_size, list_getitem.
  destruct (screenshots self) as [|t0 [|t1 l]]; cbn; [done|done|lia].
Qed.



Lemma bind_run_raise {A B} (m : M A) (k : A -> M B) tr e tr' :
  m tr = (Raise e, tr') -> (m ≫= k) tr = (Raise e, tr').
Proof. unfold mbind, M_bind. by intros ->. Qed.



(** ** [min] and [max] *)





(** ** The registry *)

(** C1 (the code departs from the claim): a second tile at the coordinates
    of a registered one is not ignored.  The test
    [screenshot in self.mapped_screenshots] compares a [Screenshot] with the
    dictionary's string keys and is never true, so the tile is appended and
    the dictionary entry is overwritten: adding [(0,0)] twice to an empty
    registry leaves two tiles, and the lookup answers with the second. *)
Theorem add_screenshot_duplicate_appended :
  let first_seen := mkScreenshot 0 0 (Some "map_0_0.png") None in
  let duplicate := mkScreenshot 0 0 None (Some "map_0_0_tile.png") in
  exists empty,
    ScreenshotProcessor__init__ [] = Ok empty
    /\ let once := add_screenshot empty first_seen in
       let twice := add_screenshot once duplicate in
       count once = 1%nat
       /\ count twice = 2%nat
       /\ screenshots twice = [first_seen; duplicate]
       /\ mapped_screenshots twice !! coordinate_string first_seen = Some duplicate.
Proof.
  intros first_seen duplicate. eexists. split; [reflexivity|].
  cbv zeta. rewrite !add_screenshot_appends. cbn -[coordinate_string].
  repeat split.
Qed.

(** C6: [find_neighbour] never raises, whatever the registry.  On a registry
    built by [__init__] and [add_screenshot] it returns a registered tile
    whose coordinates are [(x + x_offset, z + z_offset)] when the registry
    holds one, and [None] exactly when it holds none. *)
Theorem find_neighbour_total self screenshot x_offset z_offset :
  exists res,
    find_neighbour self screenshot x_offset z_offset = Ok res
    /\ (reachable self ->
        match res with
        | Some n =>
            n ∈ screenshots self
            /\ xCoordWS n = xCoordWS screenshot + x_offset
            /\ zCoordWS n = zCoordWS screenshot + z_offset
        | None =>
            forall n, n ∈ screenshots self ->
              ~ (xCoordWS n = xCoordWS screenshot + x_offset
                 /\ zCoordWS n = zCoordWS screenshot + z_offset)
        end).
Proof.
  unfold find_neighbour, dict_getitem. cbv zeta.
  destruct (mapped_screenshots self !! _) as [n|] eqn:Hlook.
  - exists (Some n). split; [done|]. intros [_ Hkey _]%reachable_inv.
    destruct (Hkey _ _ Hlook) as [Heq Hn]. split; [done|].
    apply make_coordinate_string_inj in Heq. lia.
  - exists None. split; [done|]. intros [_ _ Hmapped]%reachable_inv n Hn [Hx Hz].
    destruct (Hmapped n Hn) as [v Hv].
    unfold coordinate_string in Hv. rewrite Hx, Hz in Hv. congruence.
Qed.

Lemma find_neighbour_total_witness :
  exists n,
    find_neighbour grid_2x2 (tile_at 0 0) 100 0 = Ok (Some n)
    /\ n ∈ screenshots grid_2x2
    /\ xCoordWS n = 100 /\ zCoordWS n = 0.
Proof.
  destruct (find_neighbour_total grid_2x2 (tile_at 0 0) 100 0)
    as (res & Hres & Hspec).
  assert (reachable grid_2x2) as Hreach.
  { unfold grid_2x2. cbn [foldl]. repeat apply reachable_add.
    apply (reachable_init []). reflexivity. }
  specialize (Hspec Hreach).
  assert (find_neighbour grid_2x2 (tile_at 0 0) 100 0 = Ok (Some (tile_at 100 0)))
    as Hrun by (vm_compute; reflexivity).
  rewrite Hrun in Hres. injection Hres as <-.
  exists (tile_at 100 0). split; [done|]. exact Hspec.
Defined.



(** ** The compositor *)

Section Compositor.

Variables TILE_CROP_SIZE TILE_OVERLAP : Z.




End Compositor.

(** ** Division facts used by the compositor *)


Lemma tile_step_size_nonneg self step : tile_step_size self = Ok step -> 0 <= step.
Proof.
  unfold tile_step_size, list_getitem.
  destruct (screenshots self !! 0%nat); [|done].
  destruct (screenshots self !! 1%nat); [|done].
  cbn. intros [= <-]. lia.
Qed.




(** ** Full grids *)

Lemma elem_of_grid_coords x0 z0 s m n x z :
  (x, z) ∈ grid_coords x0 z0 s m n
  <-> exists i j, 0 <= i < m /\ 0 <= j < n /\ x = x0 + i * s /\ z = z0 + j * s.
Proof.
  unfold grid_coords. rewrite list_elem_of_bind. split.
  - intros (i & Hin & Hi). apply list_elem_of_bind in Hin as (j & Hin & Hj).
    apply list_elem_of_singleton in Hin as [= -> ->].
    apply elem_of_seqZ in Hi, Hj. exists i, j. lia.
  - intros (i & j & Hi & Hj & -> & ->). exists i. split; [|apply elem_of_seqZ; lia].
    apply list_elem_of_bind. exists j. split; [by left|apply elem_of_seqZ; lia].
Qed.

Section Grid.

Context (tiles : list Screenshot) (x0 z0 s m n : Z).
Hypothesis Hs : 0 < s.
Hypothesis Hm : 1 <= m.
Hypothesis Hn : 1 <= n.
Hypothesis Hgrid : coordinates <$> tiles ≡ₚ grid_coords x0 z0 s m n.

Lemma grid_tile_coords tile :
  tile ∈ tiles ->
  exists i j, 0 <= i < m /\ 0 <= j < n
    /\ xCoordWS tile = x0 + i * s /\ zCoordWS tile = z0 + j * s.
Proof.
  intros Hin. apply elem_of_grid_coords. rewrite <- Hgrid.
  by apply (list_elem_of_fmap_2 coordinates).
Qed.

Lemma grid_has_tile i j :
  0 <= i < m -> 0 <= j < n ->
  exists tile, tile ∈ tiles
    /\ xCoordWS tile = x0 + i * s /\ zCoordWS tile = z0 + j * s.
Proof.
  intros Hi Hj.
  assert ((x0 + i * s, z0 + j * s) ∈ coordinates <$> tiles) as Hin.
  { rewrite Hgrid. apply elem_of_grid_coords. by exists i, j. }
  apply list_elem_of_fmap in Hin as (tile & [= Hx Hz] & Hin).
  by exists tile.
Qed.





End Grid.

#[local] Instance key_le_trans : Transitive key_le.
Proof. unfold key_le. intros a b c Hab Hbc. lia. Qed.

Lemma grid_coords_NoDup x0 z0 s m n : 0 < s -> NoDup (grid_coords x0 z0 s m n).
Proof.
  intros Hs. unfold grid_coords. apply NoDup_bind; [| |apply NoDup_seqZ].
  - intros i1 i2 [x z] _ _ (j1 & Hin1 & _)%list_elem_of_bind (j2 & Hin2 & _)%list_elem_of_bind.
    apply list_elem_of_singleton in Hin1 as [= -> ->].
    apply list_elem_of_singleton in Hin2. injection Hin2. intros. nia.
  - intros i _. apply NoDup_bind; [| |apply NoDup_seqZ].
    + intros j1 j2 [x z] _ _ Hin1 Hin2.
      apply list_elem_of_singleton in Hin1 as [= -> ->].
      apply list_elem_of_singleton in Hin2. injection Hin2. intros. nia.
    + intros j _. apply NoDup_singleton.
Qed.

(** A registry that holds exactly a full grid of at least two tiles infers
    the spacing of the grid as its step size. *)
Lemma grid_registry_step_size self x0 z0 s m n :
  Sorted key_le (screenshots self) ->
  0 < s -> 1 <= m -> 1 <= n -> 2 <= m * n ->
  coordinates <$> screenshots self ≡ₚ grid_coords x0 z0 s m n ->
  tile_step_size self = Ok s.
Proof.
  intros Hsorted Hs Hm Hn Hmn Hgrid.
  apply Sorted_StronglySorted in Hsorted; [|apply _].
  pose proof (grid_coords_NoDup x0 z0 s m n Hs) as Hnodup.
  rewrite <- Hgrid in Hnodup.
  (* the two smallest coordinates of the grid *)
  set (i1 := if decide (2 <= n) then 0 else 1).
  set (j1 := if decide (2 <= n) then 1 else 0).
  destruct (grid_has_tile _ x0 z0 s m n Hgrid 0 0) as (u0 & Hu0 & Hu0x & Hu0z); [lia..|].
  destruct (grid_has_tile _ x0 z0 s m n Hgrid i1 j1) as (u1 & Hu1 & Hu1x & Hu1z).
  { unfold i1. case_decide; nia. }
  { unfold j1. case_decide; lia. }
  assert (Hin : forall t, t ∈ screenshots self ->
            exists i j, 0 <= i < m /\ 0 <= j < n
              /\ xCoordWS t = x0 + i * s /\ zCoordWS t = z0 + j * s)
    by (intros t; by apply grid_tile_coords).
  unfold tile_step_size, list_getitem.
  destruct (screenshots self) as [|t0 [|t1 rest]] eqn:Hl.
  { by apply elem_of_nil in Hu0. }
  { apply list_elem_of_singleton in Hu0 as ->, Hu1 as ->.
    unfold i1, j1 in *. case_decide; nia. }
  cbn. f_equal.
  apply StronglySorted_cons in Hsorted as [Hle0 Hsorted].
  apply StronglySorted_cons in Hsorted as [Hle1 _].
  rewrite Forall_forall in Hle0, Hle1.
  cbn in Hnodup. apply NoDup_cons in Hnodup as [Hne _].
  (* the first tile sits at the origin of the grid *)
  assert (Ht0 : xCoordWS t0 = x0 /\ zCoordWS t0 = z0).
  { destruct (Hin t0 ltac:(left)) as (i & j & Hi & Hj & Hx & Hz).
    apply elem_of_cons in Hu0 as [->|Hu0]; [lia|].
    specialize (Hle0 u0 Hu0). unfold key_le in Hle0. nia. }
  destruct Ht0 as [Ht0x Ht0z].
  (* the second one at the next coordinate *)
  assert (Ht1 : xCoordWS t1 = x0 + i1 * s /\ zCoordWS t1 = z0 + j1 * s).
  { destruct (Hin t1 ltac:(right; left)) as (i & j & Hi & Hj & Hx & Hz).
    assert (Hnot0 : ~ (i = 0 /\ j = 0)).
    { intros [-> ->]. apply Hne, elem_of_cons. left.
      unfold coordinates. f_equal; lia. }
    assert (Hu1' : key_le t1 u1).
    { apply elem_of_cons in Hu1 as [->|Hu1].
      - exfalso. unfold i1, j1 in *. case_decide; nia.
      - apply elem_of_cons in Hu1 as [->|Hu1]; [unfold key_le; lia|by apply Hle1]. }
    unfold key_le in Hu1'. unfold i1, j1 in *. case_decide; nia. }
  destruct Ht1 as [Ht1x Ht1z].
  rewrite Ht0x, Ht0z, Ht1x, Ht1z. unfold i1, j1. case_decide; lia.
Qed.






Lemma round_half_even_nonneg n d : 0 <= n -> 0 < d -> 0 <= PyFloat.round_half_even n d.
Proof.
  intros Hn Hd. pose proof (Z.div_pos n d Hn Hd).
  destruct (PyFloatFacts.round_half_even_cases n d Hd) as [->|[-> _]]; lia.
Qed.

(** The quotient of a non-negative span by a positive step is not
    negative, whatever its size. *)
Lemma int_truediv_sign a b r : 0 <= a -> 0 < b -> int_truediv a b = Ok r -> 0 <= r.
Proof.
  intros Ha Hb. unfold int_truediv, PyFloat.truediv.
  destruct (Z.eqb_spec b 0); [lia|].
  destruct (Z.eqb_spec a 0) as [->|Ha0]; [cbn; intros [= <-]; lia|].
  destruct (PyFloat.overflows _); [done|]. cbn -[PyFloat.div_pos].
  intros [= <-]. rewrite Z.sgn_pos, Z.sgn_pos, !Z.mul_1_l by lia.
  unfold PyFloat.to_int, PyFloat.div_pos. cbn [PyFloat.fmant PyFloat.fexp].
  set (e := PyFloat.div_exponent _ _).
  assert (0 <= PyFloat.round_half_even (PyFloat.scaled_num (Z.abs a) e)
                                       (PyFloat.scaled_den (Z.abs b) e)) as Hm.
  { unfold PyFloat.scaled_num, PyFloat.scaled_den.
    assert (0 < 2 ^ Z.max 0 (- e)) by (apply Z.pow_pos_nonneg; lia).
    assert (0 < 2 ^ Z.max 0 e) by (apply Z.pow_pos_nonneg; lia).
    apply round_half_even_nonneg; nia. }
  destruct (Z.leb_spec 0 e).
  - assert (0 < 2 ^ e) by (apply Z.pow_pos_nonneg; lia). nia.
  - apply Z.quot_pos; [done|]. apply Z.pow_pos_nonneg; lia.
Qed.



(** C4: the registry holds the tiles [(0,0)], [(100,0)], [(0,100)],
    [(100,100)]; its step size is 100.  With crop size 50 and overlap 0 the
    canvas is 100 by 100 pixels and tile [(0,0)] is pasted at [(0, 50)]. *)
Theorem scenario_2x2 :
  screenshots grid_2x2
    = [tile_at 0 0; tile_at 0 100; tile_at 100 0; tile_at 100 100]
  /\ tile_step_size grid_2x2 = Ok 100
  /\ make_large_map 50 0 grid_2x2 "map.png" []
     = (Ok tt,
        [ImageNew 100 100;
         Paste (tile_at 0 0) 0 50; Unload (tile_at 0 0);
         Paste (tile_at 0 100) 0 0; Unload (tile_at 0 100);
         Paste (tile_at 100 0) 50 50; Unload (tile_at 100 0);
         Paste (tile_at 100 100) 50 0; Unload (tile_at 100 100);
         Save "map.png"]).
Proof. split; [reflexivity|]. split; [reflexivity|]. vm_compute. reflexivity. Qed.

(** ** Grid normalisation *)

(** C8, the claim as stated fails: [int(...)] truncates toward zero.  With
    [coord = 0], [minCoord = 1] and step 2 the result is 0 where the floor
    of [-1/2] is [-1]; and the difference [2^53 + 1] over step 1 gives
    [2^53], the float nearest to the quotient. *)
Lemma get_unit_coordinates_not_floor :
  get_unit_coordinates (tile_at 0 0) 1 1 2 = Ok (0, 0)
  /\ (0 - 1) / 2 = -1
  /\ get_unit_coordinates (tile_at (2 ^ 53 + 1) 0) 0 0 1 = Ok (2 ^ 53, 0)
  /\ (2 ^ 53 + 1 - 0) / 1 = 2 ^ 53 + 1.
Proof. repeat split; vm_compute; reflexivity. Qed.

(** C8 (amended): for a step size [s > 0] and differences [coord - min]
    below [2 ^ 53] in magnitude, [get_unit_coordinates] returns along each
    axis the quotient [(coord - min) / s] truncated toward zero: its floor
    when [coord >= min], and minus the floor of [(min - coord) / s] (the
    ceiling of the quotient) when [coord < min]. *)
Theorem get_unit_coordinates_truncates self min_x min_z s :
  0 < s ->
  Z.abs (xCoordWS self - min_x) < 2 ^ 53 ->
  Z.abs (zCoordWS self - min_z) < 2 ^ 53 ->
  get_unit_coordinates self min_x min_z s
    = Ok (Z.quot (xCoordWS self - min_x) s, Z.quot (zCoordWS self - min_z) s)
  /\ (forall coord min_coord, min_coord <= coord ->
        Z.quot (coord - min_coord) s = (coord - min_coord) / s)
  /\ (forall coord min_coord, coord < min_coord ->
        Z.quot (coord - min_coord) s = - ((min_coord - coord) / s)).
Proof.
  intros Hs Hx Hz. split; [|split].
  - unfold get_unit_coordinates. by rewrite !int_truediv_exact by lia.
  - intros coord min_coord Hle. apply Z.quot_div_nonneg; lia.
  - intros coord min_coord Hlt.
    replace (coord - min_coord) with (- (min_coord - coord)) by lia.
    rewrite Z.quot_opp_l by lia. f_equal. apply Z.quot_div_nonneg; lia.
Qed.

Lemma get_unit_coordinates_truncates_witness :
  get_unit_coordinates (tile_at (-150) 250) 0 0 100
    = Ok (Z.quot (-150 - 0) 100, Z.quot (250 - 0) 100)
  /\ (forall coord min_coord, min_coord <= coord ->
        Z.quot (coord - min_coord) 100 = (coord - min_coord) / 100)
  /\ (forall coord min_coord, coord < min_coord ->
        Z.quot (coord - min_coord) 100 = - ((min_coord - coord) / 100)).
Proof.
  apply (get_unit_coordinates_truncates (tile_at (-150) 250) 0 0 100);
    [lia | vm_compute; reflexivity | vm_compute; reflexivity].
Defined.

(** ** Failures *)

(** C9: compositing an empty list of tiles raises [ValueError] from the
    first [min], before any call is made (no canvas, no file); and on a
    registry without tiles [min_x], [max_x], [min_z] and [max_z] raise
    [ValueError]. *)
Theorem empty_input_fails :
  (forall crop overlap self output_filename tr,
     composite_screenshot_tiles crop overlap self [] output_filename tr
     = (Raise ValueError, tr))
  /\ (forall mapped,
        let self := mkProcessor [] mapped in
        min_x self = Raise ValueError /\ max_x self = Raise ValueError
        /\ min_z self = Raise ValueError /\ max_z self = Raise ValueError).
Proof. split; [reflexivity|]. intros mapped self. by repeat split. Qed.

Lemma composite_short_registry crop overlap self tiles output_filename tr :
  (length (screenshots self) < 2)%nat ->
  composite_screenshot_tiles crop overlap self tiles output_filename tr
  = (Raise (if decide (tiles = []) then ValueError else IndexError), tr).
Proof.
  intros Hlen. destruct tiles as [|t tiles]; [done|].
  unfold composite_screenshot_tiles. cbn [fmap list_fmap py_min py_max].
  rewrite !bind_lift_ok. cbv beta zeta.
  by rewrite (tile_step_size_short self Hlen), bind_lift_raise.
Qed.

Lemma auto_find_crop_short_registry self :
  (length (screenshots self) < 2)%nat ->
  auto_find_crop_neighbour self = Raise KeyError
  \/ auto_find_crop_neighbour self = Raise IndexError.
Proof.
  intros Hlen. unfold auto_find_crop_neighbour, dict_getitem.
  destruct (mapped_screenshots self !! _); [|by left].
  right. by rewrite (tile_step_size_short self Hlen).
Qed.

Lemma make_initial_tiles_short_registry crop overlap path_exists self dir z tr :
  (length (screenshots self) < 2)%nat -> screenshots self <> [] ->
  make_initial_tiles crop overlap path_exists self dir z tr = (Raise IndexError, tr).
Proof.
  intros Hlen Hne. unfold make_initial_tiles.
  rewrite (tile_step_size_short self Hlen).
  destruct (screenshots self) as [|t l]; [done|]. cbn [for_each].
  erewrite bind_run_raise; [done|]. by rewrite bind_lift_raise.
Qed.

(** C10, the claim as stated fails for initial tile generation: on a
    registry without tiles the loop of [make_initial_tiles] has nothing to
    do, the step size is never read and the call returns normally, although
    [tile_step_size] itself raises [IndexError]. *)
Lemma make_initial_tiles_empty_registry :
  (length (screenshots empty_processor) < 2)%nat
  /\ tile_step_size empty_processor = Raise IndexError
  /\ make_initial_tiles 550 (-7) (fun _ => false) empty_processor "out" 0 []
     = (Ok tt, []).
Proof. split; [cbn; lia|]. by split. Qed.

(** C10 (amended): on a registry of fewer than two tiles [tile_step_size]
    raises [IndexError]; hence compositing fails without making a call
    ([ValueError] for an empty tile list, else [IndexError]), the neighbour
    search of [auto_find_crop] fails ([KeyError] or [IndexError]), and
    initial tile generation on a registry of exactly one tile fails with
    [IndexError]. *)
Theorem step_size_needs_two_tiles self :
  (length (screenshots self) < 2)%nat ->
  tile_step_size self = Raise IndexError
  /\ (forall crop overlap tiles output_filename tr,
        composite_screenshot_tiles crop overlap self tiles output_filename tr
        = (Raise (if decide (tiles = []) then ValueError else IndexError), tr))
  /\ (auto_find_crop_neighbour self = Raise KeyError
      \/ auto_find_crop_neighbour self = Raise IndexError)
  /\ (forall crop overlap path_exists output_directory initial_z_dirname tr,
        screenshots self <> [] ->
        make_initial_tiles crop overlap path_exists self
          output_directory initial_z_dirname tr
        = (Raise IndexError, tr)).
Proof.
  intros Hlen. split; [by apply tile_step_size_short|]. split; [|split].
  - intros. by apply composite_short_registry.
  - by apply auto_find_crop_short_registry.
  - intros. by apply make_initial_tiles_short_registry.
Qed.

Lemma step_size_needs_two_tiles_witness :
  let self := add_screenshot empty_processor (tile_at 5700 3800) in
  tile_step_size self = Raise IndexError
  /\ (forall crop overlap tiles output_filename tr,
        composite_screenshot_tiles crop overlap self tiles output_filename tr
        = (Raise (if decide (tiles = []) then ValueError else IndexError), tr))
  /\ (auto_find_crop_neighbour self = Raise KeyError
      \/ auto_find_crop_neighbour self = Raise IndexError)
  /\ (forall crop overlap path_exists output_directory initial_z_dirname tr,
        screenshots self <> [] ->
        make_initial_tiles crop overlap path_exists self
          output_directory initial_z_dirname tr
        = (Raise IndexError, tr)).
Proof.
  apply (step_size_needs_two_tiles (add_screenshot empty_processor (tile_at 5700 3800))).
  vm_compute. lia.
Defined.

(** * Further properties of the code *)

(** ** [Screenshot.__eq__] and [__hash__] *)

Lemma coordinate_string_inj a b :
  coordinate_string a = coordinate_string b <-> coordinates a = coordinates b.
Proof.
  unfold coordinate_string, coordinates. split.
  - intros [-> ->]%make_coordinate_string_inj. done.
  - by intros [= -> ->].
Qed.

(** X1: two screenshots compare equal exactly when their coordinate
    strings, which [__hash__] hashes, are equal, and exactly when they have
    the same [x] and the same [z]; the file paths play no part.  A
    screenshot never compares equal to a string, whichever operand comes
    first. *)
Theorem Screenshot_eq_hash_consistent a b s :
  (py_eq (PyScreenshot a) (PyScreenshot b) = true
     <-> coordinate_string a = coordinate_string b)
  /\ (py_eq (PyScreenshot a) (PyScreenshot b) = true
     <-> xCoordWS a = xCoordWS b /\ zCoordWS a = zCoordWS b)
  /\ py_eq (PyScreenshot a) (PyStr s) = false
  /\ py_eq (PyStr s) (PyScreenshot a) = false.
Proof.
  assert (py_eq (PyScreenshot a) (PyScreenshot b) = true
          <-> xCoordWS a = xCoordWS b /\ zCoordWS a = zCoordWS b) as Heq.
  { cbn. rewrite andb_true_iff, !Z.eqb_eq. done. }
  split; [|split; [done|by split]].
  rewrite Heq, coordinate_string_inj. unfold coordinates.
  split; [by intros [-> ->]|by intros [= -> ->]].
Qed.

(** ** [__init__] *)

Lemma foldl_insert_dom (l : list Screenshot) (m : gmap string Screenshot) :
  dom (foldl (fun m t => <[coordinate_string t := t]> m) m l)
  = dom m ∪ list_to_set (coordinate_string <$> l).
Proof.
  revert m. induction l as [|t l IH]; intros m; cbn.
  - set_solver.
  - rewrite IH, dom_insert_L. set_solver.
Qed.

Lemma size_list_to_set_le (ks : list string) :
  (size (list_to_set ks : gset string) <= length ks)%nat
  /\ (size (list_to_set ks : gset string) = length ks -> NoDup ks).
Proof.
  induction ks as [|k ks [IHle IHeq]]; cbn.
  { split; [by rewrite size_empty|constructor]. }
  destruct (decide (k ∈ ks)) as [Hin|Hin].
  - assert ({[k]} ∪ list_to_set ks = (list_to_set ks : gset string)) as ->
      by set_solver.
    split; lia.
  - rewrite size_union, size_singleton by set_solver. split; [lia|].
    intros Heq. apply NoDup_cons. split; [done|]. apply IHeq. lia.
Qed.

Lemma init_ok_iff l :
  (exists self, ScreenshotProcessor__init__ l = Ok self)
  <-> NoDup (coordinate_string <$> l).
Proof.
  unfold ScreenshotProcessor__init__.
  set (mapped := foldl _ _ l).
  assert (size mapped = size (list_to_set (coordinate_string <$> l) : gset string))
    as Hsize.
  { rewrite <- size_dom. unfold mapped. rewrite foldl_insert_dom.
    f_equal. set_solver. }
  rewrite Hsize.
  destruct (Nat.eqb_spec (length l)
              (size (list_to_set (coordinate_string <$> l) : gset string)))
    as [Heq|Hne]; cbn.
  - split; [|by eexists]. intros _.
    apply size_list_to_set_le. by rewrite length_fmap.
  - split; [by intros [? ?]|]. intros Hnd. exfalso. apply Hne.
    by rewrite size_list_to_set, length_fmap.
Qed.

Lemma NoDup_fmap_elem_inj {A B} (f : A -> B) (l : list A) x y :
  NoDup (f <$> l) -> x ∈ l -> y ∈ l -> f x = f y -> x = y.
Proof.
  intros Hnd [i Hi]%list_elem_of_lookup [j Hj]%list_elem_of_lookup Hf.
  assert (i = j) as ->.
  { apply (NoDup_lookup (f <$> l) i j (f x)); [done|..];
      rewrite list_lookup_fmap; [by rewrite Hi|by rewrite Hj, Hf]. }
  congruence.
Qed.

Lemma not_NoDup_lookup {A} `{EqDecision A} (l : list A) :
  ~ NoDup l ->
  exists i j x, i <> j /\ l !! i = Some x /\ l !! j = Some x.
Proof.
  induction l as [|x l IH]; intros Hnd.
  { destruct Hnd. constructor. }
  destruct (decide (x ∈ l)) as [Hin|Hin].
  - apply list_elem_of_lookup in Hin as [j Hj].
    by exists 0%nat, (S j), x.
  - destruct IH as (i & j & y & Hij & Hi & Hj).
    { intros Hl. apply Hnd. by constructor. }
    exists (S i), (S j), y. split; [lia|done].
Qed.

(** X2: [__init__] raises [RuntimeError] exactly when two tiles of the list
    have the same coordinates.  Otherwise the registry holds the tiles of
    the list in ascending [(x, z)] order, and the lookup at the coordinates
    of each tile answers with that very tile. *)
Theorem init_duplicates l :
  (ScreenshotProcessor__init__ l = Raise RuntimeError
     <-> exists i j a b, i <> j /\ l !! i = Some a /\ l !! j = Some b
           /\ xCoordWS a = xCoordWS b /\ zCoordWS a = zCoordWS b)
  /\ (forall self, ScreenshotProcessor__init__ l = Ok self ->
        screenshots self ≡ₚ l
        /\ Sorted key_le (screenshots self)
        /\ forall t, t ∈ l ->
             find_neighbour self t 0 0 = Ok (Some t)).
Proof.
  split.
  - assert (ScreenshotProcessor__init__ l = Raise RuntimeError
            <-> ~ NoDup (coordinate_string <$> l)) as ->.
    { rewrite <- init_ok_iff. unfold ScreenshotProcessor__init__.
      case_match; split; try done.
      - intros _ [? ?]. done.
      - intros Hno. exfalso. apply Hno. by eexists. }
    split.
    + intros (i & j & k & Hij & Hi & Hj)%not_NoDup_lookup.
      apply list_lookup_fmap_Some in Hi as (a & Hka & Hi).
      apply list_lookup_fmap_Some in Hj as (b & Hkb & Hj).
      exists i, j, a, b. split; [done|]. split; [done|]. split; [done|].
      assert (coordinates a = coordinates b) as [= Hx Hz]
        by (apply coordinate_string_inj; congruence).
      done.
    + intros (i & j & a & b & Hij & Hi & Hj & Hx & Hz) Hnd.
      apply Hij. apply (NoDup_lookup _ i j (coordinate_string a) Hnd).
      * by rewrite list_lookup_fmap, Hi.
      * rewrite list_lookup_fmap, Hj. cbn. f_equal.
        apply coordinate_string_inj. unfold coordinates. by rewrite Hx, Hz.
  - intros self Hinit.
    assert (NoDup (coordinate_string <$> l)) as Hnd
      by (apply init_ok_iff; by eexists).
    pose proof (init_inv l self Hinit) as [Hsorted Hkey Hmapped].
    assert (screenshots self ≡ₚ l) as Hperm.
    { unfold ScreenshotProcessor__init__ in Hinit. case_match; [done|].
      injection Hinit as <-. cbn -[sorted_by_key].
      destruct l; [done|]. cbn -[sorted_by_key]. apply sorted_by_key_perm. }
    split; [done|]. split; [done|].
    intros t Ht. unfold find_neighbour, dict_getitem. cbv zeta.
    rewrite !Z.add_0_r. fold (coordinate_string t).
    destruct (Hmapped t) as [v Hv]; [by rewrite Hperm|]. rewrite Hv.
    destruct (Hkey _ _ Hv) as [Hk Hvin]. rewrite Hperm in Hvin.
    by rewrite (NoDup_fmap_elem_inj coordinate_string l t v Hnd Ht Hvin Hk).
Qed.

(** ** [add_screenshot] and [find_neighbour] *)

Lemma find_neighbour_lookup self t dx dz :
  find_neighbour self t dx dz
  = Ok (mapped_screenshots self
          !! make_coordinate_string (xCoordWS t + dx) (zCoordWS t + dz)).
Proof.
  unfold find_neighbour, dict_getitem. cbv zeta.
  by destruct (mapped_screenshots self !! _).
Qed.

(** X3: after [add_screenshot] the lookup at the coordinates of the added
    tile answers with that tile, whatever was registered there before; the
    lookups at other coordinates are as before, and there is one tile
    more. *)
Theorem add_screenshot_lookup self screenshot t x_offset z_offset :
  (xCoordWS t + x_offset = xCoordWS screenshot ->
   zCoordWS t + z_offset = zCoordWS screenshot ->
   find_neighbour (add_screenshot self screenshot) t x_offset z_offset
   = Ok (Some screenshot))
  /\ (~ (xCoordWS t + x_offset = xCoordWS screenshot
         /\ zCoordWS t + z_offset = zCoordWS screenshot) ->
      find_neighbour (add_screenshot self screenshot) t x_offset z_offset
      = find_neighbour self t x_offset z_offset)
  /\ count (add_screenshot self screenshot) = S (count self).
Proof.
  rewrite !find_neighbour_lookup, add_screenshot_appends. cbn -[sorted_by_key].
  split; [|split].
  - intros -> ->. f_equal. apply lookup_insert_eq.
  - intros Hne. f_equal. apply lookup_insert_ne.
    intros [Hx Hz]%make_coordinate_string_inj. apply Hne. done.
  - unfold count. cbn -[sorted_by_key].
    rewrite sorted_by_key_length, length_app. cbn. lia.
Qed.

Lemma add_screenshot_lookup_witness :
  find_neighbour (add_screenshot grid_2x2 (tile_at 200 0)) (tile_at 100 0) 100 0
  = Ok (Some (tile_at 200 0)).
Proof.
  apply (add_screenshot_lookup grid_2x2 (tile_at 200 0) (tile_at 100 0) 100 0);
    reflexivity.
Defined.

(** The registry after the tiles of [l] were added one by one. *)
Lemma foldl_add_screenshots self l :
  screenshots (foldl add_screenshot self l) ≡ₚ screenshots self ++ l.
Proof.
  revert self. induction l as [|t l IH]; intros self; cbn.
  { by rewrite app_nil_r. }
  rewrite IH, add_screenshot_appends. cbn -[sorted_by_key].
  rewrite sorted_by_key_perm. by rewrite <- app_assoc.
Qed.

Lemma foldl_add_mapped self l k :
  mapped_screenshots (foldl add_screenshot self l) !! k
  = match last (filter (fun t => coordinate_string t = k) l) with
    | Some t => Some t
    | None => mapped_screenshots self !! k
    end.
Proof.
  revert self. induction l as [|t l IH]; intros self; [done|].
  cbn [foldl]. rewrite IH, filter_cons, add_screenshot_appends.
  cbn [mapped_screenshots].
  destruct (decide (coordinate_string t = k)) as [Hk|Hk].
  - destruct (filter _ l) as [|u us] eqn:Hf.
    + cbn. rewrite <- Hk. apply lookup_insert_eq.
    + change (last (t :: u :: us)) with (last (u :: us)).
      destruct (last (u :: us)) eqn:Hl; [done|]. by apply last_None in Hl.
  - destruct (last (filter _ l)); [done|]. by apply lookup_insert_ne.
Qed.

(** X4: a registry built from the empty one by adding the tiles of a list
    one by one keeps every tile, duplicates included, in ascending [(x, z)]
    order; the lookup at [(x, z)] answers with the tile added last at these
    coordinates, and with [None] if there is none. *)
Theorem registry_of_additions l :
  let self := foldl add_screenshot empty_processor l in
  screenshots self ≡ₚ l
  /\ Sorted key_le (screenshots self)
  /\ count self = length l
  /\ forall t x_offset z_offset,
       find_neighbour self t x_offset z_offset
       = Ok (last (filter
                     (fun u => xCoordWS u = xCoordWS t + x_offset
                               /\ zCoordWS u = zCoordWS t + z_offset) l)).
Proof.
  intros self. assert (screenshots self ≡ₚ l) as Hperm.
  { unfold self. by rewrite foldl_add_screenshots. }
  split; [done|]. split; [|split].
  - apply reachable_inv. unfold self. clear.
    assert (reachable empty_processor) as Hr by (by apply (reachable_init [])).
    revert Hr. generalize empty_processor.
    induction l as [|t l IH]; intros self Hr; [done|].
    cbn. apply IH. by constructor.
  - unfold count. by rewrite Hperm.
  - intros t dx dz. rewrite find_neighbour_lookup. f_equal.
    unfold self. rewrite foldl_add_mapped. cbn [empty_processor mapped_screenshots].
    rewrite lookup_empty.
    assert (filter (fun u => coordinate_string u
                             = make_coordinate_string (xCoordWS t + dx) (zCoordWS t + dz)) l
            = filter (fun u => xCoordWS u = xCoordWS t + dx
                               /\ zCoordWS u = zCoordWS t + dz) l) as ->.
    { apply list_filter_iff. intros u. unfold coordinate_string. split.
      - by intros ?%make_coordinate_string_inj.
      - by intros [-> ->]. }
    by destruct (last _).
Qed.

(** X5: on a registry built by [__init__] and [add_screenshot], the
    neighbour relation can be walked back: if a registered tile has a
    neighbour at an offset, that neighbour has, at the opposite offset, a
    tile at the coordinates of the first one. *)
Theorem find_neighbour_back self t x_offset z_offset n :
  reachable self ->
  t ∈ screenshots self ->
  find_neighbour self t x_offset z_offset = Ok (Some n) ->
  exists t',
    find_neighbour self n (- x_offset) (- z_offset) = Ok (Some t')
    /\ xCoordWS t' = xCoordWS t /\ zCoordWS t' = zCoordWS t.
Proof.
  intros [_ Hkey Hmapped]%reachable_inv Ht.
  rewrite !find_neighbour_lookup. intros [= Hn].
  destruct (Hkey _ _ Hn) as [[Hx Hz]%make_coordinate_string_inj _].
  destruct (Hmapped t Ht) as [t' Ht'].
  exists t'. split.
  - f_equal. rewrite <- Ht'. f_equal. unfold coordinate_string. f_equal; lia.
  - destruct (Hkey _ _ Ht') as [[Hx' Hz']%make_coordinate_string_inj _]. lia.
Qed.

Lemma find_neighbour_back_witness :
  exists t',
    find_neighbour grid_2x2 (tile_at 100 0) (- 100) (- 0) = Ok (Some t')
    /\ xCoordWS t' = xCoordWS (tile_at 0 0) /\ zCoordWS t' = zCoordWS (tile_at 0 0).
Proof.
  apply (find_neighbour_back grid_2x2 (tile_at 0 0) 100 0 (tile_at 100 0)).
  - unfold grid_2x2. cbn [foldl]. repeat apply reachable_add.
    apply (reachable_init []). reflexivity.
  - replace (screenshots grid_2x2)
      with [tile_at 0 0; tile_at 0 100; tile_at 100 0; tile_at 100 100]
      by (vm_compute; reflexivity).
    left.
  - vm_compute. reflexivity.
Defined.

(** ** A step size of zero *)

Lemma int_truediv_by_zero a : int_truediv a 0 = Raise ZeroDivisionError.
Proof. done. Qed.

Lemma composite_zero_step crop overlap self tiles output_filename tr :
  tile_step_size self = Ok 0 -> tiles <> [] ->
  composite_screenshot_tiles crop overlap self tiles output_filename tr
  = (Raise ZeroDivisionError, tr).
Proof.
  intros Hstep Hne. destruct tiles as [|t tiles]; [done|].
  unfold composite_screenshot_tiles. cbn [fmap list_fmap py_min py_max].
  rewrite !bind_lift_ok. cbv beta zeta.
  rewrite Hstep, bind_lift_ok. cbv beta. by rewrite int_truediv_by_zero.
Qed.

Lemma key_le_antisym a b :
  key_le a b -> key_le b a -> xCoordWS a = xCoordWS b /\ zCoordWS a = zCoordWS b.
Proof. unfold key_le. lia. Qed.

(** X6: on a registry built by [__init__] and [add_screenshot], adding a
    second tile at the coordinates of the first tile of the list makes the
    step size 0, and from then on compositing any non-empty tile list
    raises [ZeroDivisionError] before a canvas is created. *)
Theorem duplicate_of_first_tile_zero_step self tile_0 rest duplicate :
  reachable self ->
  screenshots self = tile_0 :: rest ->
  xCoordWS duplicate = xCoordWS tile_0 ->
  zCoordWS duplicate = zCoordWS tile_0 ->
  tile_step_size (add_screenshot self duplicate) = Ok 0
  /\ forall crop overlap tiles output_filename tr,
       tiles <> [] ->
       composite_screenshot_tiles crop overlap (add_screenshot self duplicate)
         tiles output_filename tr
       = (Raise ZeroDivisionError, tr).
Proof.
  intros [Hsorted _ _]%reachable_inv Hl Hx Hz.
  assert (tile_step_size (add_screenshot self duplicate) = Ok 0) as Hstep.
  { rewrite add_screenshot_appends. unfold tile_step_size, list_getitem.
    cbn [screenshots]. rewrite Hl in *. cbn [app sorted_by_key foldr].
    fold (sorted_by_key (rest ++ [duplicate])).
    apply Sorted_StronglySorted in Hsorted; [|apply _].
    apply StronglySorted_cons in Hsorted as [Hle0 _].
    rewrite Forall_forall in Hle0.
    pose proof (sorted_by_key_sorted (rest ++ [duplicate])) as HL.
    pose proof (sorted_by_key_perm (rest ++ [duplicate])) as HP.
    destruct (sorted_by_key (rest ++ [duplicate])) as [|u L] eqn:HeqL.
    { apply Permutation_nil_l in HP. by destruct rest. }
    assert (Hall : forall v, v ∈ u :: L -> key_le tile_0 v).
    { intros v Hv. rewrite HP in Hv. apply elem_of_app in Hv as [Hv|Hv].
      - by apply Hle0.
      - apply list_elem_of_singleton in Hv as ->. unfold key_le. lia. }
    assert (Hu0 : key_le tile_0 u) by (apply Hall; left).
    assert (Hu : key_le u duplicate).
    { apply Sorted_StronglySorted in HL; [|apply _].
      apply StronglySorted_cons in HL as [HuL _]. rewrite Forall_forall in HuL.
      assert (duplicate ∈ u :: L) as Hd
        by (rewrite HP; apply elem_of_app; right; left).
      apply elem_of_cons in Hd as [->|Hd]; [unfold key_le; lia|by apply HuL]. }
    cbn [insert_by_key]. apply key_lt_false in Hu0 as Hlt. rewrite Hlt. cbn.
    unfold key_le in Hu, Hu0. f_equal. lia. }
  split; [done|]. intros. by apply composite_zero_step.
Qed.

Lemma duplicate_of_first_tile_zero_step_witness :
  tile_step_size
    (add_screenshot grid_2x2 (mkScreenshot 0 0 (Some "map_0_0.png") None)) = Ok 0
  /\ forall crop overlap tiles output_filename tr,
       tiles <> [] ->
       composite_screenshot_tiles crop overlap
         (add_screenshot grid_2x2 (mkScreenshot 0 0 (Some "map_0_0.png") None))
         tiles output_filename tr
       = (Raise ZeroDivisionError, tr).
Proof.
  apply (duplicate_of_first_tile_zero_step grid_2x2 (tile_at 0 0)
           [tile_at 0 100; tile_at 100 0; tile_at 100 100]).
  - unfold grid_2x2. cbn [foldl]. repeat apply reachable_add.
    apply (reachable_init []). reflexivity.
  - vm_compute. reflexivity.
  - reflexivity.
  - reflexivity.
Defined.

(** ** The shape of a run of the compositor *)








Section CompositorRuns.

Variables TILE_CROP_SIZE TILE_OVERLAP : Z.



End CompositorRuns.








(** ** [make_large_map] *)

Lemma make_large_map_region_default crop overlap self filepath :
  make_large_map_region crop overlap self (-1) (-1) (-1) (-1) filepath
  = make_large_map crop overlap self filepath.
Proof. done. Qed.

Section LargeMapFacts.

Variable self : ScreenshotProcessor.
Variables x_coods_start z_coord_start max_x_tile_count max_z_tile_count : Z.

Lemma int_truediv_step_sign a step r :
  0 <= a -> tile_step_size self = Ok step -> int_truediv a step = Ok r -> 0 <= r.
Proof.
  intros Ha Hstep Hr. pose proof (tile_step_size_nonneg _ _ Hstep).
  destruct (Z.eq_dec step 0) as [->|Hne]; [done|].
  apply (int_truediv_sign a step); [done|lia|done].
Qed.

Lemma track_min_le cur x :
  (if (cur =? -1) || (x <? cur) then x else cur) <= x.
Proof. destruct (Z.eqb_spec cur (-1)), (Z.ltb_spec x cur); cbn; lia. Qed.

Lemma track_max_ge cur x :
  x <= (if (cur =? -1) || (cur <? x) then x else cur).
Proof. destruct (Z.eqb_spec cur (-1)), (Z.ltb_spec cur x); cbn; lia. Qed.

Lemma track_min_bound B cur x :
  1 < B -> Z.abs cur < B -> Z.abs x < B ->
  Z.abs (if (cur =? -1) || (x <? cur) then x else cur) < B.
Proof. intros. by destruct (_ || _). Qed.

Lemma track_max_bound B cur x :
  1 < B -> Z.abs cur < B -> Z.abs x < B ->
  Z.abs (if (cur =? -1) || (cur <? x) then x else cur) < B.
Proof. intros. by destruct (_ || _). Qed.

(** With negative tile counts no tile is kept. *)
Lemma scan_region_negative_counts l st st' :
  max_x_tile_count < 0 -> max_z_tile_count < 0 ->
  scan_region self x_coods_start z_coord_start max_x_tile_count
      max_z_tile_count l st = Ok st' -> included_tiles st' = included_tiles st.
Proof.
  intros Hx Hz. revert st. induction l as [|t l IH]; intros st; cbn.
  { by intros [= ->]. }
  destruct (_ && _); [by apply IH|].
  destruct (_ && _); [by apply IH|].
  destruct (tile_step_size self) as [step|] eqn:Hstep; [|cbv [mbind result_bind]; done]. cbv [mbind result_bind].
  destruct (int_truediv _ step) as [xc|] eqn:Hxc; [|cbv [mbind result_bind]; done]. cbv [mbind result_bind].
  destruct (int_truediv _ step) as [zc|] eqn:Hzc in |- *; [|cbv [mbind result_bind]; done]. cbv [mbind result_bind].
  apply int_truediv_step_sign in Hxc; [| |done].
  2: { pose proof (track_min_le (min_x_coord st) (xCoordWS t)).
       pose proof (track_max_ge (max_x_coord st) (xCoordWS t)). lia. }
  apply int_truediv_step_sign in Hzc; [| |done].
  2: { pose proof (track_min_le (min_z_coord st) (zCoordWS t)).
       pose proof (track_max_ge (max_z_coord st) (zCoordWS t)). lia. }
  destruct (Z.eqb_spec max_x_tile_count 0); [lia|].
  destruct (Z.eqb_spec max_z_tile_count 0); [lia|].
  destruct (Z.leb_spec xc max_x_tile_count); [lia|].
  destruct (Z.leb_spec zc max_z_tile_count); [lia|].
  cbn. intros Hscan. by rewrite (IH _ Hscan).
Qed.

(** With a tile count of 0 on one axis, and coordinates small enough for
    the divisions, every tile that the start coordinates do not skip is
    kept. *)
Lemma scan_region_zero_count l st s :
  max_x_tile_count = 0 \/ max_z_tile_count = 0 ->
  tile_step_size self = Ok s -> 0 < s ->
  Forall (fun t => Z.abs (xCoordWS t) < 2 ^ 52 /\ Z.abs (zCoordWS t) < 2 ^ 52) l ->
  Z.abs (min_x_coord st) < 2 ^ 52 -> Z.abs (min_z_coord st) < 2 ^ 52 ->
  Z.abs (max_x_coord st) < 2 ^ 52 -> Z.abs (max_z_coord st) < 2 ^ 52 ->
  exists st',
    scan_region self x_coods_start z_coord_start max_x_tile_count
      max_z_tile_count l st = Ok st'
    /\ included_tiles st'
       = included_tiles st ++ filter (from_start x_coods_start z_coord_start) l.
Proof.
  intros Hzero Hstep Hs. revert st.
  induction l as [|t l IH]; intros st Hl Hminx Hminz Hmaxx Hmaxz.
  { exists st. cbn. by rewrite app_nil_r. }
  apply Forall_cons in Hl as [[Htx Htz] Hl].
  rewrite filter_cons. cbn [scan_region].
  destruct (decide (from_start x_coods_start z_coord_start t)) as [Hpass|Hskip].
  - destruct Hpass as [Hpx Hpz].
    destruct (Z.ltb_spec 0 x_coods_start), (Z.ltb_spec (xCoordWS t) x_coods_start);
      cbn; try lia;
      destruct (Z.ltb_spec 0 z_coord_start), (Z.ltb_spec (zCoordWS t) z_coord_start);
      cbn; try lia.
    all: rewrite Hstep; cbv [mbind result_bind].
    all: pose proof (track_min_le (min_x_coord st) (xCoordWS t));
         pose proof (track_max_ge (max_x_coord st) (xCoordWS t));
         pose proof (track_min_le (min_z_coord st) (zCoordWS t));
         pose proof (track_max_ge (max_z_coord st) (zCoordWS t));
         pose proof (track_min_bound (2 ^ 52) _ _ eq_refl Hminx Htx);
         pose proof (track_max_bound (2 ^ 52) _ _ eq_refl Hmaxx Htx);
         pose proof (track_min_bound (2 ^ 52) _ _ eq_refl Hminz Htz);
         pose proof (track_max_bound (2 ^ 52) _ _ eq_refl Hmaxz Htz).
    all: rewrite !int_truediv_nonneg by (change (2 ^ 53) with (2 * 2 ^ 52); lia).
    all: replace (((max_x_tile_count =? 0) || _) || ((max_z_tile_count =? 0) || _))
           with true
           by (destruct Hzero as [-> | ->]; cbn; by rewrite ?orb_true_r).
    all: match goal with
         | |- exists st', scan_region _ _ _ _ _ _ ?S = _ /\ _ =>
             destruct (IH S) as (st' & Hscan & Hincl); [done..|]
         end.
    all: exists st'; split; [exact Hscan|].
    all: rewrite Hincl; cbn; by rewrite <- app_assoc.
  - assert ((0 <? x_coods_start) && (xCoordWS t <? x_coods_start) = true
            \/ (0 <? z_coord_start) && (zCoordWS t <? z_coord_start) = true) as Hs'.
    { unfold from_start in Hskip.
      destruct (Z.ltb_spec 0 x_coods_start), (Z.ltb_spec (xCoordWS t) x_coods_start),
        (Z.ltb_spec 0 z_coord_start), (Z.ltb_spec (zCoordWS t) z_coord_start);
        cbn; auto; exfalso; apply Hskip; lia. }
    destruct (_ && _); [by apply IH|].
    destruct Hs' as [?| ->]; [done|]. by apply IH.
Qed.

End LargeMapFacts.

(** X10: when [make_large_map] is given a start coordinate that is not
    negative but both tile counts are left negative (their default is
    [-1]), no tile is kept: the call raises, whatever the registry, and no
    canvas is created. *)
Theorem make_large_map_negative_counts crop overlap self
    x_coods_start z_coord_start max_x_tile_count max_z_tile_count filepath tr :
  max_x_tile_count < 0 ->
  max_z_tile_count < 0 ->
  0 <= x_coods_start \/ 0 <= z_coord_start ->
  exists e,
    make_large_map_region crop overlap self x_coods_start z_coord_start
      max_x_tile_count max_z_tile_count filepath tr
    = (Raise e, tr).
Proof.
  intros Hx Hz Hstart. unfold make_large_map_region.
  assert ((x_coods_start <? 0) && (z_coord_start <? 0)
          && (max_x_tile_count <? 0) && (max_z_tile_count <? 0) = false) as ->.
  { destruct (Z.ltb_spec x_coods_start 0), (Z.ltb_spec z_coord_start 0);
      cbn; try done; lia. }
  destruct (scan_region _ _ _ _ _ _ _) as [st'|e] eqn:Hscan.
  - apply scan_region_negative_counts in Hscan; [|done..].
    cbn in Hscan. rewrite bind_lift_ok, Hscan. by exists ValueError.
  - exists e. by rewrite bind_lift_raise.
Qed.

Lemma make_large_map_negative_counts_witness :
  exists e,
    make_large_map_region 550 (-7) grid_2x2 100 (-1) (-1) (-1) "map.png" []
    = (Raise e, []).
Proof.
  apply (make_large_map_negative_counts 550 (-7) grid_2x2 100 (-1) (-1) (-1));
    lia.
Defined.

(** X11: when one of the tile counts given to [make_large_map] is 0, the
    registry has a step size [s > 0] and its coordinates are below [2 ^ 52]
    in magnitude, the tiles composited are exactly the registered tiles that
    the start coordinates do not skip: those with [x >= x_coods_start] when
    that start is positive, and [z >= z_coord_start] when that one is. *)
Theorem make_large_map_zero_count crop overlap self
    x_coods_start z_coord_start max_x_tile_count max_z_tile_count filepath tr s :
  max_x_tile_count = 0 \/ max_z_tile_count = 0 ->
  tile_step_size self = Ok s ->
  0 < s ->
  Forall (fun t => Z.abs (xCoordWS t) < 2 ^ 52 /\ Z.abs (zCoordWS t) < 2 ^ 52)
         (screenshots self) ->
  make_large_map_region crop overlap self x_coods_start z_coord_start
    max_x_tile_count max_z_tile_count filepath tr
  = composite_screenshot_tiles crop overlap self
      (filter (from_start x_coods_start z_coord_start) (screenshots self))
      filepath tr.
Proof.
  intros Hzero Hstep Hs Hbound. unfold make_large_map_region.
  assert ((x_coods_start <? 0) && (z_coord_start <? 0)
          && (max_x_tile_count <? 0) && (max_z_tile_count <? 0) = false) as ->.
  { destruct Hzero as [-> | ->]; cbn; by rewrite ?andb_false_r. }
  destruct (scan_region_zero_count self x_coods_start z_coord_start
              max_x_tile_count max_z_tile_count (screenshots self)
              (mkScan [] (-1) (-1) (-1) (-1)) s) as (st' & Hscan & Hincl);
    [done..|].
  rewrite Hscan, bind_lift_ok. by rewrite Hincl.
Qed.

Lemma make_large_map_zero_count_witness :
  make_large_map_region 50 0 grid_2x2 100 (-1) 0 (-1) "map.png" []
  = composite_screenshot_tiles 50 0 grid_2x2
      (filter (from_start 100 (-1)) (screenshots grid_2x2)) "map.png" [].
Proof.
  assert (tile_step_size grid_2x2 = Ok 100) as Hstep by (vm_compute; reflexivity).
  assert (Forall (fun t => Z.abs (xCoordWS t) < 2 ^ 52 /\ Z.abs (zCoordWS t) < 2 ^ 52)
         (screenshots grid_2x2)) as Hb.
  { replace (screenshots grid_2x2)
    with [tile_at 0 0; tile_at 0 100; tile_at 100 0; tile_at 100 100]
    by (vm_compute; reflexivity).
    repeat (apply Forall_cons_2; [split; reflexivity|]). apply Forall_nil_2. }
  assert (0 < 100) as Hs by reflexivity.
  exact (make_large_map_zero_count 50 0 grid_2x2 100 (-1) 0 (-1) "map.png" [] 100
           (or_introl eq_refl) Hstep Hs Hb).
Defined.

(** ** The tile sets of the alignment tool *)

Lemma find_valid_tile_sets_loop_spec processor step tiles valid_sets :
  tile_step_size processor = Ok step ->
  find_valid_tile_sets_loop processor tiles valid_sets
  = Ok (valid_sets ++ omap (tile_set_of processor step) tiles).
Proof.
  intros Hstep. revert valid_sets.
  induction tiles as [|tile tiles IH]; intros valid_sets; cbn.
  { by rewrite app_nil_r. }
  rewrite Hstep. cbv [mbind result_bind]. rewrite !find_neighbour_lookup.
  rewrite IH. unfold tile_set_of. cbv zeta.
  destruct (py_bool _ || py_bool _); [|done]. by rewrite <- app_assoc.
Qed.

Lemma find_valid_tile_sets_spec processor step tiles :
  tile_step_size processor = Ok step ->
  find_valid_tile_sets processor tiles
  = Ok (omap (tile_set_of processor step) tiles).
Proof.
  intros Hstep. unfold find_valid_tile_sets.
  by rewrite (find_valid_tile_sets_loop_spec _ step).
Qed.

Lemma tile_set_of_Some processor step tile tile_set :
  tile_set_of processor step tile = Some tile_set ->
  set_tile tile_set = tile
  /\ set_h_neighbor tile_set
     = mapped_screenshots processor
         !! make_coordinate_string (xCoordWS tile + step) (zCoordWS tile + 0)
  /\ set_v_neighbor tile_set
     = mapped_screenshots processor
         !! make_coordinate_string (xCoordWS tile + 0) (zCoordWS tile + step)
  /\ (is_Some (set_h_neighbor tile_set) \/ is_Some (set_v_neighbor tile_set)).
Proof.
  unfold tile_set_of. cbv zeta.
  destruct (mapped_screenshots processor !! _) as [h|] eqn:Hh;
    destruct (mapped_screenshots processor !! make_coordinate_string
                (xCoordWS tile + 0) _) as [v|] eqn:Hv;
    cbn; intros [= <-]; cbn; eauto 6.
Qed.

Lemma registered_at self n x z :
  registry_inv self ->
  mapped_screenshots self !! make_coordinate_string x z = Some n ->
  n ∈ screenshots self /\ xCoordWS n = x /\ zCoordWS n = z.
Proof.
  intros [_ Hkey _] Hn.
  destruct (Hkey _ _ Hn) as [[Hx Hz]%make_coordinate_string_inj Hin]. done.
Qed.

Lemma registered_lookup self t :
  registry_inv self -> t ∈ screenshots self ->
  is_Some (mapped_screenshots self
             !! make_coordinate_string (xCoordWS t) (zCoordWS t)).
Proof. intros [_ _ Hmapped] Ht. by apply Hmapped. Qed.

(** X12: on a registry built by [__init__] and [add_screenshot] that has a
    step size, [find_valid_tile_sets] returns, in the order of the
    registry, one entry for each tile that has a registered tile one step
    to its right or one step above it, and no other entry; the neighbours
    of an entry are registered tiles at these coordinates, and [None] when
    no tile is registered there.  Tiles whose only neighbours are to the
    left or below get no entry. *)
Theorem find_valid_tile_sets_entries processor step :
  reachable processor ->
  tile_step_size processor = Ok step ->
  exists valid_sets,
    find_valid_tile_sets processor (screenshots processor) = Ok valid_sets
    /\ sublist (set_tile <$> valid_sets) (screenshots processor)
    /\ (forall tile,
          tile ∈ set_tile <$> valid_sets
          <-> tile ∈ screenshots processor
              /\ exists n, n ∈ screenshots processor
                   /\ (coordinates n
                         = (xCoordWS tile + step, zCoordWS tile)
                       \/ coordinates n
                         = (xCoordWS tile, zCoordWS tile + step)))
    /\ (forall tile_set, tile_set ∈ valid_sets ->
          (match set_h_neighbor tile_set with
           | Some n => n ∈ screenshots processor
                       /\ coordinates n
                          = (xCoordWS (set_tile tile_set) + step,
                             zCoordWS (set_tile tile_set))
           | None => forall n, n ∈ screenshots processor ->
                       coordinates n
                       <> (xCoordWS (set_tile tile_set) + step,
                           zCoordWS (set_tile tile_set))
           end)
          /\ (match set_v_neighbor tile_set with
              | Some n => n ∈ screenshots processor
                          /\ coordinates n
                             = (xCoordWS (set_tile tile_set),
                                zCoordWS (set_tile tile_set) + step)
              | None => forall n, n ∈ screenshots processor ->
                          coordinates n
                          <> (xCoordWS (set_tile tile_set),
                              zCoordWS (set_tile tile_set) + step)
              end)).
Proof.
  intros Hinv%reachable_inv Hstep.
  exists (omap (tile_set_of processor step) (screenshots processor)).
  split; [by apply find_valid_tile_sets_spec|].
  assert (forall x z,
            match mapped_screenshots processor !! make_coordinate_string x z with
            | Some n => n ∈ screenshots processor /\ coordinates n = (x, z)
            | None => forall n, n ∈ screenshots processor -> coordinates n <> (x, z)
            end) as Hlook.
  { intros x z.
    destruct (mapped_screenshots processor !! _) as [n|] eqn:Hn.
    - destruct (registered_at _ _ _ _ Hinv Hn) as (? & ? & ?).
      unfold coordinates. split; [done|]. congruence.
    - intros n Hin [= Hx Hz].
      destruct (registered_lookup _ _ Hinv Hin) as [v Hv].
      rewrite Hx, Hz in Hv. congruence. }
  split; [|split].
  - generalize (screenshots processor). intros l.
    induction l as [|t l IH]; cbn; [done|].
    destruct (tile_set_of processor step t) as [ts|] eqn:Hts; cbn.
    + apply tile_set_of_Some in Hts as [-> _]. by apply sublist_skip.
    + by apply sublist_cons.
  - intros tile. rewrite list_elem_of_fmap. split.
    + intros (ts & -> & (t & Ht & Hts)%list_elem_of_omap).
      apply tile_set_of_Some in Hts as (-> & Hh & Hv & Hsome).
      split; [done|].
      destruct Hsome as [[n Hn]|[n Hn]].
      * rewrite Hn in Hh. symmetry in Hh.
        apply (registered_at _ _ _ _ Hinv) in Hh as (? & ? & ?).
        exists n. split; [done|]. left. unfold coordinates. f_equal; lia.
      * rewrite Hn in Hv. symmetry in Hv.
        apply (registered_at _ _ _ _ Hinv) in Hv as (? & ? & ?).
        exists n. split; [done|]. right. unfold coordinates. f_equal; lia.
    + intros (Ht & n & Hn & Hcoords).
      assert (is_Some (tile_set_of processor step tile)) as [ts Hts].
      { unfold tile_set_of. cbv zeta.
        pose proof (Hlook (xCoordWS tile + step) (zCoordWS tile + 0)) as Hh.
        pose proof (Hlook (xCoordWS tile + 0) (zCoordWS tile + step)) as Hv.
        destruct (mapped_screenshots processor !! _) as [h|]; [by eexists|].
        destruct (mapped_screenshots processor !! _) as [v|]; [by eexists|].
        exfalso. destruct Hcoords as [Hc|Hc].
        - apply (Hh n Hn). rewrite Hc. f_equal; lia.
        - apply (Hv n Hn). rewrite Hc. f_equal; lia. }
      exists ts. split.
      * by apply tile_set_of_Some in Hts as [-> _].
      * apply list_elem_of_omap. by exists tile.
  - intros ts (t & Ht & Hts)%list_elem_of_omap.
    apply tile_set_of_Some in Hts as (-> & -> & -> & _).
    pose proof (Hlook (xCoordWS t + step) (zCoordWS t + 0)) as Hh.
    pose proof (Hlook (xCoordWS t + 0) (zCoordWS t + step)) as Hv.
    rewrite !Z.add_0_r in *. done.
Qed.

Lemma find_valid_tile_sets_entries_witness :
  exists valid_sets,
    find_valid_tile_sets grid_2x2 (screenshots grid_2x2) = Ok valid_sets
    /\ sublist (set_tile <$> valid_sets) (screenshots grid_2x2)
    /\ (forall tile,
          tile ∈ set_tile <$> valid_sets
          <-> tile ∈ screenshots grid_2x2
              /\ exists n, n ∈ screenshots grid_2x2
                   /\ (coordinates n
                         = (xCoordWS tile + 100, zCoordWS tile)
                       \/ coordinates n
                         = (xCoordWS tile, zCoordWS tile + 100)))
    /\ (forall tile_set, tile_set ∈ valid_sets ->
          (match set_h_neighbor tile_set with
           | Some n => n ∈ screenshots grid_2x2
                       /\ coordinates n
                          = (xCoordWS (set_tile tile_set) + 100,
                             zCoordWS (set_tile tile_set))
           | None => forall n, n ∈ screenshots grid_2x2 ->
                       coordinates n
                       <> (xCoordWS (set_tile tile_set) + 100,
                           zCoordWS (set_tile tile_set))
           end)
          /\ (match set_v_neighbor tile_set with
              | Some n => n ∈ screenshots grid_2x2
                          /\ coordinates n
                             = (xCoordWS (set_tile tile_set),
                                zCoordWS (set_tile tile_set) + 100)
              | None => forall n, n ∈ screenshots grid_2x2 ->
                          coordinates n
                          <> (xCoordWS (set_tile tile_set),
                              zCoordWS (set_tile tile_set) + 100)
              end)).
Proof.
  assert (reachable grid_2x2) as Hreach.
  { unfold grid_2x2. cbn [foldl]. repeat apply reachable_add.
    apply (reachable_init []). reflexivity. }
  assert (tile_step_size grid_2x2 = Ok 100) as Hstep by (vm_compute; reflexivity).
  exact (find_valid_tile_sets_entries grid_2x2 100 Hreach Hstep).
Defined.

Lemma omap_length_le {A B} (f : A -> option B) (l : list A) :
  (length (omap f l) <= length l)%nat.
Proof.
  induction l as [|a l IH]; cbn; [done|]. destruct (f a); cbn; lia.
Qed.

Lemma omap_length_lt {A B} (f : A -> option B) (l : list A) a :
  a ∈ l -> f a = None -> (length (omap f l) < length l)%nat.
Proof.
  intros Ha Hf. induction l as [|b l IH]; [by apply elem_of_nil in Ha|].
  cbn. apply elem_of_cons in Ha as [<-|Ha].
  - rewrite Hf. pose proof (omap_length_le f l). lia.
  - specialize (IH Ha). destruct (f b); cbn; lia.
Qed.

Lemma Sorted_le_last l t last_tile :
  Sorted key_le l -> last l = Some last_tile -> t ∈ l -> key_le t last_tile.
Proof.
  intros Hs%(Sorted_StronglySorted _). revert last_tile.
  induction Hs as [|a l Hs IH Hall]; intros last_tile Hlast Ht.
  { by apply elem_of_nil in Ht. }
  destruct l as [|b l].
  - cbn in Hlast. injection Hlast as <-.
    apply list_elem_of_singleton in Ht as ->. unfold key_le. lia.
  - change (last (a :: b :: l)) with (last (b :: l)) in Hlast.
    apply elem_of_cons in Ht as [->|Ht]; [|by apply IH].
    rewrite Forall_forall in Hall. apply Hall.
    apply last_Some in Hlast as [l' ->]. apply elem_of_app. right. by left.
Qed.

(** X13: with a step size [s > 0] the last tile of the registry, the one
    with the greatest [(x, z)], never gets an entry: there are fewer tile
    sets than tiles.  With the step size 0, which the first two tiles give
    when they have the same coordinates, every tile gets an entry. *)
Theorem find_valid_tile_sets_count processor step :
  reachable processor ->
  tile_step_size processor = Ok step ->
  exists valid_sets,
    find_valid_tile_sets processor (screenshots processor) = Ok valid_sets
    /\ (0 < step ->
        (length valid_sets < length (screenshots processor))%nat
        /\ forall last_tile,
             last (screenshots processor) = Some last_tile ->
             last_tile ∉ set_tile <$> valid_sets)
    /\ (step = 0 -> set_tile <$> valid_sets = screenshots processor).
Proof.
  intros Hinv%reachable_inv Hstep.
  exists (omap (tile_set_of processor step) (screenshots processor)).
  split; [by apply find_valid_tile_sets_spec|].
  split.
  - intros Hs.
    assert (forall last_tile,
              last (screenshots processor) = Some last_tile ->
              tile_set_of processor step last_tile = None) as Hlast.
    { intros last_tile Hlast.
      destruct (tile_set_of processor step last_tile) as [ts|] eqn:Hts; [|done].
      exfalso.
      apply tile_set_of_Some in Hts as (_ & Hh & Hv & [[n Hn]|[n Hn]]).
      - rewrite Hn in Hh. symmetry in Hh.
        apply (registered_at _ _ _ _ Hinv) in Hh as (Hin & Hx & Hz).
        pose proof (Sorted_le_last _ _ _ (inv_sorted _ Hinv) Hlast Hin) as Hle.
        unfold key_le in Hle. lia.
      - rewrite Hn in Hv. symmetry in Hv.
        apply (registered_at _ _ _ _ Hinv) in Hv as (Hin & Hx & Hz).
        pose proof (Sorted_le_last _ _ _ (inv_sorted _ Hinv) Hlast Hin) as Hle.
        unfold key_le in Hle. lia. }
    split.
    + destruct (last (screenshots processor)) as [last_tile|] eqn:Hl.
      * apply (omap_length_lt _ _ last_tile); [|by apply Hlast].
        apply last_Some in Hl as [l' ->]. apply elem_of_app. right. by left.
      * apply last_None in Hl. unfold tile_step_size in Hstep.
        by rewrite Hl in Hstep.
    + intros last_tile Hl (ts & -> & (t & Ht & Hts)%list_elem_of_omap)%list_elem_of_fmap.
      apply tile_set_of_Some in Hts as Hts'. destruct Hts' as [Heq _].
      rewrite Heq in Hl. apply Hlast in Hl. congruence.
  - intros ->.
    assert (forall t, t ∈ screenshots processor ->
              exists ts, tile_set_of processor 0 t = Some ts /\ set_tile ts = t)
      as Hall.
    { intros t Ht. unfold tile_set_of. cbv zeta. rewrite !Z.add_0_r.
      destruct (registered_lookup _ _ Hinv Ht) as [v ->]. cbn. by eexists. }
    revert Hall. generalize (screenshots processor). intros l Hall.
    induction l as [|t l IH]; [done|]. cbn.
    destruct (Hall t) as (ts & -> & Hts); [by left|]. cbn. rewrite Hts. f_equal.
    apply IH. intros u Hu. apply Hall. by right.
Qed.

Lemma find_valid_tile_sets_count_witness :
  exists valid_sets,
    find_valid_tile_sets grid_2x2 (screenshots grid_2x2) = Ok valid_sets
    /\ (0 < 100 ->
        (length valid_sets < length (screenshots grid_2x2))%nat
        /\ forall last_tile,
             last (screenshots grid_2x2) = Some last_tile ->
             last_tile ∉ set_tile <$> valid_sets)
    /\ (100 = 0 -> set_tile <$> valid_sets = screenshots grid_2x2).
Proof.
  assert (reachable grid_2x2) as Hreach.
  { unfold grid_2x2. cbn [foldl]. repeat apply reachable_add.
    apply (reachable_init []). reflexivity. }
  assert (tile_step_size grid_2x2 = Ok 100) as Hstep by (vm_compute; reflexivity).
  exact (find_valid_tile_sets_count grid_2x2 100 Hreach Hstep).
Defined.

(** ** Loading and changing the tile set on display *)

Lemma list_getitem_int_range {A} (l : list A) i :
  0 <= i < Z.of_nat (length l) ->
  exists a, l !! Z.to_nat i = Some a /\ list_getitem_int l i = Ok a.
Proof.
  intros Hi. unfold list_getitem_int, list_getitem. cbv zeta.
  destruct (Z.ltb_spec i 0); [lia|].
  destruct (Z.leb_spec 0 i); [|lia].
  destruct (Z.ltb_spec i (Z.of_nat (length l))); [|lia]. cbn.
  destruct (lookup_lt_is_Some_2 l (Z.to_nat i)) as [a Ha]; [lia|].
  exists a. by rewrite Ha.
Qed.

Lemma Screenshot__eq__refl t : Screenshot__eq__ t (PyScreenshot t) = true.
Proof. cbn. by rewrite !Z.eqb_refl. Qed.

Lemma enumerate_select_found tiles i t d :
  t ∈ tiles ->
  exists k u,
    enumerate_select tiles i t d = (i + k)%nat
    /\ tiles !! k = Some u
    /\ coordinates u = coordinates t
    /\ forall j u', (j < k)%nat -> tiles !! j = Some u' ->
         coordinates u' <> coordinates t.
Proof.
  intros Ht. revert i. induction tiles as [|a tiles IH]; intros i.
  { by apply elem_of_nil in Ht. }
  cbn. destruct (_ && _) eqn:Heq.
  - exists 0%nat, a. split; [lia|]. split; [done|].
    apply andb_true_iff in Heq as [Hx%Z.eqb_eq Hz%Z.eqb_eq].
    unfold coordinates. split; [by rewrite Hx, Hz|]. intros j u' Hj. lia.
  - apply elem_of_cons in Ht as [->|Ht].
    { by rewrite !Z.eqb_refl in Heq. }
    destruct (IH Ht (S i)) as (k & u & Hk & Hu & Hc & Hfirst).
    exists (S k), u. split; [lia|]. split; [done|]. split; [done|].
    intros [|j] u' Hj Hu'.
    + injection Hu' as <-. unfold coordinates. intros [= Hx Hz].
      rewrite Hx, Hz, !Z.eqb_refl in Heq. done.
    + apply (Hfirst j); [lia|done].
Qed.

Lemma enumerate_select_first tiles t d :
  t ∈ tiles ->
  exists tile,
    tiles !! enumerate_select tiles 0 t d = Some tile
    /\ coordinates tile = coordinates t
    /\ forall i tile', (i < enumerate_select tiles 0 t d)%nat ->
         tiles !! i = Some tile' ->
         coordinates tile' <> coordinates t.
Proof.
  intros Ht.
  destruct (enumerate_select_found tiles 0 t d Ht) as (k & u & -> & Hu & Hc & Hf).
  by exists u.
Qed.

Lemma enumerate_select_default tiles i t d d' :
  t ∈ tiles -> enumerate_select tiles i t d = enumerate_select tiles i t d'.
Proof.
  intros Ht. revert i. induction tiles as [|a tiles IH]; intros i.
  { by apply elem_of_nil in Ht. }
  cbn. destruct (_ && _) eqn:Heq; [done|].
  apply elem_of_cons in Ht as [->|Ht]; [by rewrite !Z.eqb_refl in Heq|].
  by apply IH.
Qed.

Lemma load_current_tile_set_loaded registry all_tiles sets i j :
  0 <= i < Z.of_nat (length sets) ->
  (forall tile_set, tile_set ∈ sets -> set_tile tile_set ∈ all_tiles) ->
  exists self,
    load_current_tile_set registry all_tiles sets i j = Ok self
    /\ loaded self
    /\ processor self = registry
    /\ tiles self = all_tiles
    /\ valid_tile_sets self = sets
    /\ current_set_index self = i
    /\ selected_tile_index self
       = enumerate_select all_tiles 0 (current_tile self) j.
Proof.
  intros Hi Htiles. unfold load_current_tile_set.
  destruct (list_getitem_int_range sets i Hi) as (cs & Hcs & ->).
  cbv [mbind result_bind]. eexists. split; [done|].
  split; [|done]. split; cbn.
  - done.
  - by exists cs.
  - apply enumerate_select_default. apply Htiles.
    by eapply list_elem_of_lookup_2.
  - done.
Qed.

(** Loading the tile set of the current index again changes nothing. *)
Lemma load_current_tile_set_again self j :
  loaded self ->
  load_current_tile_set (processor self) (tiles self) (valid_tile_sets self)
    (current_set_index self) j
  = Ok self.
Proof.
  intros [Hi (cs & Hcs & Hct & Hh & Hv) Hsel Htiles].
  unfold load_current_tile_set.
  destruct (list_getitem_int_range _ _ Hi) as (cs' & Hcs' & ->).
  assert (cs' = cs) as -> by congruence.
  cbv [mbind result_bind]. f_equal. destruct self as [P T S i sel ct h v].
  cbn in *. subst ct h v. f_equal. rewrite Hsel.
  apply enumerate_select_default. apply Htiles. by eapply list_elem_of_lookup_2.
Qed.

Lemma py_mod_pos a b : 0 < b -> py_mod a b = Ok (a mod b).
Proof. intros Hb. unfold py_mod. destruct (Z.eqb_spec b 0); [lia|done]. Qed.

Lemma mod_succ_pred i n :
  0 <= i < n -> ((i + 1) mod n - 1) mod n = i /\ ((i - 1) mod n + 1) mod n = i.
Proof.
  intros Hi. split.
  - destruct (decide (i + 1 = n)) as [Heq|Hne].
    + rewrite Heq, Z.mod_same by lia.
      rewrite <- (Z.mod_add (0 - 1) 1 n) by lia. rewrite Z.mod_small by lia; lia.
    + rewrite (Z.mod_small (i + 1)) by lia. rewrite Z.mod_small by lia; lia.
  - destruct (decide (i = 0)) as [->|Hne].
    + rewrite <- (Z.mod_add (0 - 1) 1 n) by lia.
      rewrite (Z.mod_small (0 - 1 + 1 * n)) by lia.
      replace (0 - 1 + 1 * n + 1) with n by lia. rewrite Z.mod_same by lia; lia.
    + rewrite (Z.mod_small (i - 1)) by lia. rewrite Z.mod_small by lia; lia.
Qed.

Lemma mod_succ_cases i n :
  0 <= i < n ->
  (i + 1) mod n = (if i + 1 =? n then 0 else i + 1)
  /\ (i - 1) mod n = (if i =? 0 then n - 1 else i - 1).
Proof.
  intros Hi. split.
  - destruct (Z.eqb_spec (i + 1) n) as [->|Hne].
    + rewrite Z.mod_same by lia; lia.
    + rewrite Z.mod_small by lia; lia.
  - destruct (Z.eqb_spec i 0) as [->|Hne].
    + rewrite <- (Z.mod_add (0 - 1) 1 n) by lia. rewrite Z.mod_small by lia; lia.
    + rewrite Z.mod_small by lia; lia.
Qed.

Lemma init_cases registry :
  match TileAlignmentGUI__init__ registry with
  | Ok self =>
      loaded self
      /\ (2 <= length (screenshots registry))%nat
      /\ processor self = registry
      /\ tiles self = screenshots registry
      /\ find_valid_tile_sets registry (screenshots registry)
         = Ok (valid_tile_sets self)
      /\ current_set_index self = 0
      /\ selected_tile_index self
         = enumerate_select (screenshots registry) 0 (current_tile self) 0
  | Raise e =>
      e = RuntimeError
      /\ ((length (screenshots registry) < 2)%nat
          \/ find_valid_tile_sets registry (screenshots registry) = Ok [])
  end.
Proof.
  unfold TileAlignmentGUI__init__. cbv zeta.
  destruct (Nat.ltb_spec (length (screenshots registry)) 2) as [Hlt|Hge].
  { split; [done|by left]. }
  assert (exists step, tile_step_size registry = Ok step) as [step Hstep].
  { unfold tile_step_size, list_getitem.
    destruct (screenshots registry) as [|t0 [|t1 l]]; cbn in *; [lia|lia|].
    by eexists. }
  rewrite (find_valid_tile_sets_spec _ step) by done.
  cbv [mbind result_bind].
  destruct (omap _ _) as [|ts sets] eqn:Hsets; [split; [done|by right]|].
  destruct (load_current_tile_set_loaded registry (screenshots registry)
              (ts :: sets) 0 0%nat) as (self & -> & Hl & HP & HT & HS & Hi & Hsel).
  { cbn. lia. }
  { rewrite <- Hsets. intros ts' (t & Ht & Hts)%list_elem_of_omap.
    by apply tile_set_of_Some in Hts as [-> _]. }
  rewrite HS. done.
Qed.

(** X14: the constructor of the alignment tool raises nothing but
    [RuntimeError] before it builds its widgets, and does so exactly when
    the registry has fewer than two tiles or [find_valid_tile_sets] finds
    no tile with a neighbour.  Otherwise it shows the first tile set: the
    current tile is a registered tile with a neighbour, and the index
    selected in the list of tiles is that of the first tile at the
    coordinates of the current one. *)
Theorem gui_init_selection registry :
  match TileAlignmentGUI__init__ registry with
  | Ok self =>
      (2 <= length (screenshots registry))%nat
      /\ processor self = registry
      /\ tiles self = screenshots registry
      /\ find_valid_tile_sets registry (screenshots registry)
         = Ok (valid_tile_sets self)
      /\ current_set_index self = 0
      /\ (exists tile_set rest,
            valid_tile_sets self = tile_set :: rest
            /\ current_tile self = set_tile tile_set
            /\ horizontal_neighbor self = set_h_neighbor tile_set
            /\ vertical_neighbor self = set_v_neighbor tile_set)
      /\ current_tile self ∈ screenshots registry
      /\ (is_Some (horizontal_neighbor self) \/ is_Some (vertical_neighbor self))
      /\ (exists tile,
            screenshots registry !! selected_tile_index self = Some tile
            /\ coordinates tile = coordinates (current_tile self)
            /\ forall i tile', (i < selected_tile_index self)%nat ->
                 screenshots registry !! i = Some tile' ->
                 coordinates tile' <> coordinates (current_tile self))
  | Raise e =>
      e = RuntimeError
      /\ ((length (screenshots registry) < 2)%nat
          \/ find_valid_tile_sets registry (screenshots registry) = Ok [])
  end.
Proof.
  pose proof (init_cases registry) as Hinit.
  destruct (TileAlignmentGUI__init__ registry) as [self|e]; [|done].
  destruct Hinit as (Hl & Hlen & HP & HT & HS & Hi & Hsel).
  destruct Hl as [_ (cs & Hcs & Hct & Hh & Hv) _ Htiles].
  rewrite Hi in Hcs. change (Z.to_nat 0) with 0%nat in Hcs.
  assert (cs ∈ valid_tile_sets self) as Hin by (by eapply list_elem_of_lookup_2).
  assert (current_tile self ∈ screenshots registry) as Hcur.
  { rewrite Hct, <- HT. by apply Htiles. }
  split; [done|]. split; [done|]. split; [done|]. split; [done|].
  split; [done|]. split; [|split; [done|split]].
  - destruct (valid_tile_sets self) as [|ts rest]; [done|].
    injection Hcs as ->. by exists cs, rest.
  - assert (exists step, tile_step_size registry = Ok step) as [step Hstep].
    { unfold find_valid_tile_sets in HS.
      destruct (screenshots registry) as [|t l]; [by apply elem_of_nil in Hcur|].
      cbn in HS. destruct (tile_step_size registry); [by eexists|done]. }
    rewrite (find_valid_tile_sets_spec _ step) in HS by done.
    injection HS as HS. rewrite <- HS in Hin.
    apply list_elem_of_omap in Hin as (t & _ & Hts).
    apply tile_set_of_Some in Hts as (_ & _ & _ & Hsome).
    by rewrite Hh, Hv.
  - rewrite Hsel. by apply enumerate_select_first.
Qed.

(** X15: on a registry built by [__init__] and [add_screenshot] whose first
    two tiles are in one column or in one row, the checks of the
    constructor pass and the tool opens on the first tile of the registry,
    selected at index 0, with a neighbour at the coordinates of the second
    tile: the vertical one when they share [x], the horizontal one when
    they share [z]. *)
Theorem gui_init_aligned_tiles registry tile_0 tile_1 rest :
  reachable registry ->
  screenshots registry = tile_0 :: tile_1 :: rest ->
  xCoordWS tile_0 = xCoordWS tile_1 \/ zCoordWS tile_0 = zCoordWS tile_1 ->
  exists self,
    TileAlignmentGUI__init__ registry = Ok self
    /\ current_tile self = tile_0
    /\ selected_tile_index self = 0%nat
    /\ (xCoordWS tile_0 = xCoordWS tile_1 ->
        exists n, vertical_neighbor self = Some n
                  /\ coordinates n = coordinates tile_1)
    /\ (zCoordWS tile_0 = zCoordWS tile_1 ->
        exists n, horizontal_neighbor self = Some n
                  /\ coordinates n = coordinates tile_1).
Proof.
  intros Hinv%reachable_inv Htiles Haligned.
  assert (key_le tile_0 tile_1) as Hle.
  { pose proof (inv_sorted _ Hinv) as Hs. rewrite Htiles in Hs.
    apply Sorted_inv in Hs as [_ Hhd]. by apply HdRel_inv in Hhd. }
  set (step := Z.max (Z.abs (xCoordWS tile_0 - xCoordWS tile_1))
                     (Z.abs (zCoordWS tile_0 - zCoordWS tile_1))).
  assert (tile_step_size registry = Ok step) as Hstep.
  { unfold tile_step_size. by rewrite Htiles. }
  destruct (registered_lookup registry tile_1 Hinv) as [n Hn].
  { rewrite Htiles. right. left. }
  destruct (registered_at _ _ _ _ Hinv Hn) as (_ & Hnx & Hnz).
  assert (exists tile_set,
            tile_set_of registry step tile_0 = Some tile_set
            /\ (xCoordWS tile_0 = xCoordWS tile_1 -> set_v_neighbor tile_set = Some n)
            /\ (zCoordWS tile_0 = zCoordWS tile_1 -> set_h_neighbor tile_set = Some n))
    as (ts & Hts & Hv & Hh).
  { unfold tile_set_of. cbv zeta. unfold key_le in Hle.
    destruct Haligned as [Hx|Hz].
    - assert (make_coordinate_string (xCoordWS tile_0 + 0) (zCoordWS tile_0 + step)
              = make_coordinate_string (xCoordWS tile_1) (zCoordWS tile_1)) as ->.
      { f_equal; unfold step; lia. }
      rewrite Hn, orb_true_r. eexists. split; [done|]. cbn. split; [done|].
      intros Hz.
      assert (make_coordinate_string (xCoordWS tile_0 + step) (zCoordWS tile_0 + 0)
              = make_coordinate_string (xCoordWS tile_1) (zCoordWS tile_1)) as ->.
      { f_equal; unfold step; lia. }
      done.
    - assert (make_coordinate_string (xCoordWS tile_0 + step) (zCoordWS tile_0 + 0)
              = make_coordinate_string (xCoordWS tile_1) (zCoordWS tile_1)) as ->.
      { f_equal; unfold step; lia. }
      rewrite Hn. cbn. eexists. split; [done|]. cbn. split; [|done].
      intros Hx.
      assert (make_coordinate_string (xCoordWS tile_0 + 0) (zCoordWS tile_0 + step)
              = make_coordinate_string (xCoordWS tile_1) (zCoordWS tile_1)) as ->.
      { f_equal; unfold step; lia. }
      done. }
  apply tile_set_of_Some in Hts as Hts'. destruct Hts' as (Htile & _).
  unfold TileAlignmentGUI__init__. cbv zeta.
  rewrite (find_valid_tile_sets_spec _ step) by done.
  rewrite Htiles. cbn [length Nat.ltb Nat.leb omap list_omap].
  change (omap (tile_set_of registry step) (tile_0 :: tile_1 :: rest))
    with (match tile_set_of registry step tile_0 with
          | Some y => y :: omap (tile_set_of registry step) (tile_1 :: rest)
          | None => omap (tile_set_of registry step) (tile_1 :: rest)
          end).
  rewrite Hts. cbv [mbind result_bind].
  unfold load_current_tile_set, list_getitem_int, list_getitem. cbn.
  eexists. split; [done|]. cbn. rewrite Htile, !Z.eqb_refl. cbn.
  split; [done|]. split; [done|]. unfold coordinates. split.
  - intros Hx. exists n. split; [by apply Hv|]. by rewrite Hnx, Hnz.
  - intros Hz. exists n. split; [by apply Hh|]. by rewrite Hnx, Hnz.
Qed.

Lemma gui_init_aligned_tiles_witness :
  exists self,
    TileAlignmentGUI__init__ grid_2x2 = Ok self
    /\ current_tile self = tile_at 0 0
    /\ selected_tile_index self = 0%nat
    /\ (xCoordWS (tile_at 0 0) = xCoordWS (tile_at 0 100) ->
        exists n, vertical_neighbor self = Some n
                  /\ coordinates n = coordinates (tile_at 0 100))
    /\ (zCoordWS (tile_at 0 0) = zCoordWS (tile_at 0 100) ->
        exists n, horizontal_neighbor self = Some n
                  /\ coordinates n = coordinates (tile_at 0 100)).
Proof.
  assert (reachable grid_2x2) as Hreach.
  { unfold grid_2x2. cbn [foldl]. repeat apply reachable_add.
    apply (reachable_init []). reflexivity. }
  assert (screenshots grid_2x2
          = tile_at 0 0 :: tile_at 0 100 :: [tile_at 100 0; tile_at 100 100])
    as Htiles by (vm_compute; reflexivity).
  assert (xCoordWS (tile_at 0 0) = xCoordWS (tile_at 0 100)
          \/ zCoordWS (tile_at 0 0) = zCoordWS (tile_at 0 100)) as Haligned
    by (left; reflexivity).
  exact (gui_init_aligned_tiles grid_2x2 (tile_at 0 0) (tile_at 0 100)
           [tile_at 100 0; tile_at 100 100] Hreach Htiles Haligned).
Defined.

(** X16: [next_set] and [prev_set] keep the index of the tile set inside
    the list, so that loading the tile set never fails; they go round the
    list, the last set being followed by the first; and each undoes the
    other: the index, the tiles on display and the selected index are as
    before. *)
Theorem next_prev_round_trip self :
  loaded self ->
  let n := Z.of_nat (length (valid_tile_sets self)) in
  (exists self',
     next_set self = Ok self'
     /\ loaded self'
     /\ current_set_index self'
        = (if current_set_index self + 1 =? n then 0
           else current_set_index self + 1)
     /\ prev_set self' = Ok self)
  /\ (exists self',
        prev_set self = Ok self'
        /\ loaded self'
        /\ current_set_index self'
           = (if current_set_index self =? 0 then n - 1
              else current_set_index self - 1)
        /\ next_set self' = Ok self).
Proof.
  intros Hl n. pose proof Hl as [Hi _ _ Htiles].
  fold n in Hi.
  destruct (mod_succ_cases (current_set_index self) n Hi) as [Hnext Hprev].
  destruct (mod_succ_pred (current_set_index self) n Hi) as [Hback Hforth].
  unfold next_set, prev_set.
  destruct (Nat.ltb_spec 1 (length (valid_tile_sets self))) as [Hn|Hn].
  - fold n. rewrite !py_mod_pos by lia. cbv [mbind result_bind]. split.
    + destruct (load_current_tile_set_loaded (processor self) (tiles self)
                  (valid_tile_sets self) ((current_set_index self + 1) mod n)
                  (selected_tile_index self))
        as (self' & Hload & Hl' & HP & HT & HS & Hi' & _);
        [apply Z.mod_pos_bound; lia|done|].
      exists self'. split; [done|]. split; [done|].
      split; [by rewrite Hi', Hnext|].
      rewrite HS. destruct (Nat.ltb_spec 1 (length (valid_tile_sets self))); [|lia].
      fold n. rewrite py_mod_pos by lia. cbv [mbind result_bind].
      rewrite HP, HT, Hi', Hback. by apply load_current_tile_set_again.
    + destruct (load_current_tile_set_loaded (processor self) (tiles self)
                  (valid_tile_sets self) ((current_set_index self - 1) mod n)
                  (selected_tile_index self))
        as (self' & Hload & Hl' & HP & HT & HS & Hi' & _);
        [apply Z.mod_pos_bound; lia|done|].
      exists self'. split; [done|]. split; [done|].
      split; [by rewrite Hi', Hprev|].
      rewrite HS. destruct (Nat.ltb_spec 1 (length (valid_tile_sets self))); [|lia].
      fold n. rewrite py_mod_pos by lia. cbv [mbind result_bind].
      rewrite HP, HT, Hi', Hforth. by apply load_current_tile_set_again.
  - assert (current_set_index self = 0 /\ n = 1) as [H0 H1] by lia.
    assert ((1 <? length (valid_tile_sets self))%nat = false) as Hone
      by (apply Nat.ltb_ge; lia).
    split; exists self; rewrite Hone; (split; [done|]); (split; [done|]);
      (split; [|done]); rewrite H0, H1; reflexivity.
Qed.

Lemma next_prev_round_trip_witness :
  (exists self',
     next_set gui_2x2 = Ok self'
     /\ loaded self'
     /\ current_set_index self' = 1
     /\ prev_set self' = Ok gui_2x2)
  /\ (exists self',
        prev_set gui_2x2 = Ok self'
        /\ loaded self'
        /\ current_set_index self' = 2
        /\ next_set self' = Ok gui_2x2).
Proof.
  assert (loaded gui_2x2) as Hloaded.
  { split.
    - cbn. lia.
    - eexists. cbn. split; [reflexivity|]. repeat split; reflexivity.
    - vm_compute. reflexivity.
    - intros ts Hts. cbn [gui_2x2 valid_tile_sets tiles] in Hts |- *.
      apply elem_of_cons in Hts as [->|Hts]; [left|].
      apply elem_of_cons in Hts as [->|Hts]; [right; left|].
      apply elem_of_cons in Hts as [->|Hts]; [do 2 right; left|].
      by apply elem_of_nil in Hts. }
  exact (next_prev_round_trip gui_2x2 Hloaded).
Defined.

(** ** [make_initial_tiles]: the files written *)

Section InitialTilesFacts.

Variables TILE_CROP_SIZE TILE_OVERLAP : Z.
Variable initial_files : list string -> bool.
Variable self : ScreenshotProcessor.
Variable output_directory : string.
Variable initial_z_dirname : Z.








End InitialTilesFacts.



